(** * Outline extraction from PDF lines: the classifier of [main.py]

    A shallow embedding of [PDFProcessor] (text normaliser, ignore filter,
    font profile, heading classifier, centring test, title detection and
    outline assembly) together with the Python builtins it calls, followed
    by the properties of the program.

    Numbers are IEEE binary64 values, as Python's [float]: Rocq's primitive
    floats with the same rounding and the same comparisons.  Text is a list
    of characters; a character is a code point below 256 (Latin-1, Rocq's
    [ascii]) carrying the classification Python's Unicode tables give it. *)

From Stdlib Require Import Bool Arith NArith ZArith Ascii String List Sorted Lia Floats.
Import ListNotations.

Set Implicit Arguments.
Set Warnings "-inexact-float".

Definition str := list ascii.

(** The text of a literal. *)
Definition lit (s : string) : str := list_ascii_of_string s.
Arguments lit s%_string.

(** ** The Python builtins used by the program *)

Module Py.

Definition code (c : ascii) : N := N_of_ascii c.

Definition between (lo hi : N) (c : ascii) : bool :=
  ((lo <=? code c) && (code c <=? hi))%N.

Definition at_code (n : N) (c : ascii) : bool := (code c =? n)%N.

(** [str.isspace] on one character; the same set is used by [str.strip],
    [str.split] and the pattern class [\s]. *)
Definition isspace (c : ascii) : bool :=
  between 9 13 c || between 28 32 c || at_code 133 c || at_code 160 c.

(** Uppercase, lowercase and titlecase characters ([Py_UNICODE_ISUPPER],
    [Py_UNICODE_ISLOWER], [Py_UNICODE_ISTITLE]); no titlecase character lies
    below U+01C5. *)
Definition isupper1 (c : ascii) : bool :=
  between 65 90 c || between 192 214 c || between 216 222 c.

Definition islower1 (c : ascii) : bool :=
  between 97 122 c || at_code 170 c || at_code 181 c || at_code 186 c
  || between 223 246 c || between 248 255 c.

Definition istitle1 (c : ascii) : bool := false.

(** [str.isalnum] on one character. *)
Definition isalnum (c : ascii) : bool :=
  between 48 57 c || between 65 90 c || between 97 122 c
  || at_code 170 c || between 178 179 c || at_code 181 c || between 185 186 c
  || between 188 190 c || between 192 214 c || between 216 246 c
  || between 248 255 c.

(** [str.lower]: every character below 256 lowers to one character below 256. *)
Definition lower1 (c : ascii) : ascii :=
  if isupper1 c then ascii_of_N (code c + 32) else c.

Definition lower (s : str) : str := map lower1 s.

Fixpoint dropwhile (p : ascii -> bool) (s : str) : str :=
  match s with
  | [] => []
  | c :: s' => if p c then dropwhile p s' else s
  end.

Definition rstrip_by (p : ascii -> bool) (s : str) : str :=
  rev (dropwhile p (rev s)).

(** [str.strip()] with no argument. *)
Definition strip (s : str) : str := rstrip_by isspace (dropwhile isspace s).

(** [str.split()] with no argument: the maximal runs of non-whitespace
    characters, in order.  [cur] is the word being read, reversed. *)
Fixpoint split_aux (cur : str) (s : str) : list str :=
  match s with
  | [] => match cur with [] => [] | _ => [rev cur] end
  | c :: s' =>
      if isspace c
      then match cur with
           | [] => split_aux [] s'
           | _ => rev cur :: split_aux [] s'
           end
      else split_aux (c :: cur) s'
  end.

Definition split (s : str) : list str := split_aux [] s.

(** [sep.join(words)]. *)
Fixpoint join (sep : str) (ws : list str) : str :=
  match ws with
  | [] => []
  | [w] => w
  | w :: ws' => w ++ sep ++ join sep ws'
  end.

(** [str.isupper]: no lowercase or titlecase character, and at least one
    uppercase one. *)
Fixpoint isupper_from (cased : bool) (s : str) : bool :=
  match s with
  | [] => cased
  | c :: s' =>
      if islower1 c || istitle1 c then false
      else isupper_from (cased || isupper1 c) s'
  end.

Definition isupper (s : str) : bool := isupper_from false s.

(** [str.istitle]: uppercase and titlecase characters only after an uncased
    character, lowercase characters only after a cased one, and at least
    one cased character. *)
Fixpoint istitle_from (cased previous_is_cased : bool) (s : str) : bool :=
  match s with
  | [] => cased
  | c :: s' =>
      if isupper1 c || istitle1 c then
        if previous_is_cased then false else istitle_from true true s'
      else if islower1 c then
        if previous_is_cased then istitle_from true true s' else false
      else istitle_from cased false s'
  end.

Definition istitle (s : str) : bool := istitle_from false false s.

Definition eqb_char (a b : ascii) : bool := (code a =? code b)%N.

Fixpoint startswith (p s : str) : bool :=
  match p, s with
  | [], _ => true
  | _ :: _, [] => false
  | a :: p', b :: s' => eqb_char a b && startswith p' s'
  end.

(** [needle in haystack] on strings. *)
Fixpoint contains (needle s : str) : bool :=
  startswith needle s
  || match s with
     | [] => false
     | _ :: s' => contains needle s'
     end.

(** [max(xs, key=key, default=None)]: the first element whose key no later
    key exceeds under [>]. *)
Fixpoint max_from (A : Type) (key : A -> float) (best : A) (xs : list A) : A :=
  match xs with
  | [] => best
  | x :: xs' => max_from key (if (key best <? key x)%float then x else best) xs'
  end.

Definition max_by (A : Type) (key : A -> float) (xs : list A) : option A :=
  match xs with
  | [] => None
  | x :: xs' => Some (max_from key x xs')
  end.

End Py.

(** ** Regular expressions: the fragment of Python's [re] the program uses *)

Module Re.

Inductive regex : Type :=
| Eps
| Lit (c : ascii)                 (* a literal character *)
| Cls (p : ascii -> bool)         (* a character class, [.] included *)
| Cat (r1 r2 : regex)
| Alt (r1 r2 : regex)
| Star (r : regex)                (* greedy [*] *)
| Bol                             (* [^] *)
| Eol                             (* [$] *)
| WordB                           (* [\b] *)
| Group (i : nat) (r : regex).    (* the i-th capturing group *)

Definition Plus (r : regex) : regex := Cat r (Star r).
Definition Opt (r : regex) : regex := Alt r Eps.

Fixpoint times (n : nat) (r : regex) : regex :=
  match n with
  | 0 => Eps
  | S n' => Cat r (times n' r)
  end.

Fixpoint upto (n : nat) (r : regex) : regex :=
  match n with
  | 0 => Eps
  | S n' => Opt (Cat r (upto n' r))
  end.

(** [r{lo,hi}] *)
Definition Repeat (lo hi : nat) (r : regex) : regex :=
  Cat (times lo r) (upto (hi - lo) r).

(** A literal word. *)
Fixpoint Word (s : str) : regex :=
  match s with
  | [] => Eps
  | c :: s' => Cat (Lit c) (Word s')
  end.

(** The classes [\w], [\s], [.] and membership in a listed set. *)
Definition word_char (c : ascii) : bool := Py.isalnum c || Py.at_code 95 c.
Definition space_char (c : ascii) : bool := Py.isspace c.
Definition any_char (c : ascii) : bool := negb (Py.at_code 10 c).
Definition one_of (s : str) (c : ascii) : bool := existsb (Py.eqb_char c) s.

(** A position in the subject: the character before it, the text from it
    on, and the groups captured so far (latest first). *)
Record mstate : Type :=
  { prev : option ascii; rest : str; groups : list (nat * str) }.

Definition step (x : ascii) (s' : str) (st : mstate) : mstate :=
  {| prev := Some x; rest := s'; groups := groups st |}.

Definition is_word_opt (o : option ascii) : bool :=
  match o with Some c => word_char c | None => false end.

Definition at_eol (s : str) : bool :=
  match s with
  | [] => true
  | [c] => Py.at_code 10 c
  | _ => false
  end.

Definition lit_matches (ignorecase : bool) (l c : ascii) : bool :=
  if ignorecase then Py.eqb_char (Py.lower1 c) (Py.lower1 l) else Py.eqb_char c l.

Definition capture (i : nat) (st st' : mstate) : mstate :=
  {| prev := prev st'; rest := rest st';
     groups := (i, firstn (length (rest st) - length (rest st')) (rest st))
                 :: groups st' |}.

(** The iterations of a greedy [*] whose body matches as [body] does: one
    more round first, as long as the round consumes a character, then none. *)
Fixpoint star_loop (body : mstate -> list mstate) (fuel : nat) (st : mstate) : list mstate :=
  match fuel with
  | 0 => [st]
  | S fuel' =>
      flat_map
        (fun st' =>
           if length (rest st') <? length (rest st)
           then star_loop body fuel' st' else [])
        (body st)
      ++ [st]
  end.

(** All the ways [r] matches at [st], in the order a backtracking matcher
    tries them: the positions reached, first choice first. *)
Fixpoint run (ignorecase : bool) (r : regex) (st : mstate) {struct r} : list mstate :=
  match r with
  | Eps => [st]
  | Lit l =>
      match rest st with
      | x :: s' => if lit_matches ignorecase l x then [step x s' st] else []
      | [] => []
      end
  | Cls p =>
      match rest st with
      | x :: s' => if p x then [step x s' st] else []
      | [] => []
      end
  | Cat r1 r2 => flat_map (run ignorecase r2) (run ignorecase r1 st)
  | Alt r1 r2 => run ignorecase r1 st ++ run ignorecase r2 st
  | Star r1 => star_loop (run ignorecase r1) (length (rest st)) st
  | Bol => match prev st with None => [st] | Some _ => [] end
  | Eol => if at_eol (rest st) then [st] else []
  | WordB =>
      if xorb (is_word_opt (prev st)) (is_word_opt (head (rest st)))
      then [st] else []
  | Group i r1 => map (capture i st) (run ignorecase r1 st)
  end.

Definition start (p : option ascii) (s : str) : mstate :=
  {| prev := p; rest := s; groups := [] |}.

(** [re.search(r, s)] is truthy: some position of [s] has a match. *)
Fixpoint search_from (ignorecase : bool) (r : regex) (p : option ascii) (s : str) : bool :=
  match run ignorecase r (start p s) with
  | _ :: _ => true
  | [] =>
      match s with
      | [] => false
      | c :: s' => search_from ignorecase r (Some c) s'
      end
  end.

Definition search (ignorecase : bool) (r : regex) (s : str) : bool :=
  search_from ignorecase r None s.

(** Replacement templates: literal text and group references [\i]. *)
Inductive titem : Type :=
| TChar (c : ascii)
| TRef (i : nat).

Fixpoint group (i : nat) (gs : list (nat * str)) : str :=
  match gs with
  | [] => []
  | (j, g) :: gs' => if i =? j then g else group i gs'
  end.

Definition expand (t : list titem) (m : mstate) : str :=
  flat_map (fun it => match it with TChar c => [c] | TRef i => group i (groups m) end) t.

Definition consumed (s : str) (m : mstate) : nat := length s - length (rest m).

(** [re.sub(r, t, s)] from a position on.  [skip] counts the characters
    still covered by the match just replaced.  At a free position the
    first match is replaced; after an empty match the matcher has to
    advance, so the first non-empty match at the same position is
    replaced too, and otherwise the character is copied. *)
Fixpoint sub_from (ignorecase : bool) (r : regex) (t : list titem)
    (p : option ascii) (s : str) (skip : nat) {struct s} : str :=
  let next (k : nat) : str :=
    match s with
    | [] => []
    | c :: s' =>
        match k with
        | 0 => c :: sub_from ignorecase r t (Some c) s' 0
        | S k' => sub_from ignorecase r t (Some c) s' k'
        end
    end in
  match skip with
  | S k' => next skip
  | 0 =>
      let ms := run ignorecase r (start p s) in
      match ms with
      | [] => next 0
      | m :: _ =>
          match consumed s m with
          | S _ => expand t m ++ next (consumed s m)
          | 0 =>
              expand t m ++
              match filter (fun m' => 0 <? consumed s m') ms with
              | m' :: _ => expand t m' ++ next (consumed s m')
              | [] => next 0
              end
          end
      end
  end.

Definition sub (ignorecase : bool) (r : regex) (t : list titem) (s : str) : str :=
  sub_from ignorecase r t None s 0.

End Re.

(** ** The program: [class PDFProcessor] *)

Module PDFProcessor.

Import Re.

Declare Scope re_scope.
Delimit Scope re_scope with re.
Infix ">>" := Cat (at level 61, right associativity) : re_scope.
Infix "<|>" := Alt (at level 62, right associativity) : re_scope.
Local Open Scope re_scope.
Local Open Scope float_scope.

Inductive level : Type := H1 | H2 | H3.

Inductive weight : Type := Bold | Regular | AnyWeight.

(** The values ['upper'], ['title'] and ['any']. *)
Inductive text_case : Type := Upper | Title | AnyCase.

Definition text_case_eqb (a b : text_case) : bool :=
  match a, b with
  | Upper, Upper | Title, Title | AnyCase, AnyCase => true
  | _, _ => false
  end.

Record profile : Type :=
  { min_size : float; max_size : float; weight_req : weight;
    case_req : text_case; min_length : nat }.

(** [self.heading_profiles], in insertion order. *)
Definition heading_profiles : list (level * profile) :=
  [ (H1, {| min_size := 17.5; max_size := infinity; weight_req := Bold;
            case_req := AnyCase; min_length := 5 |});
    (H2, {| min_size := 18; max_size := 23.9; weight_req := Bold;
            case_req := Title; min_length := 4 |});
    (H3, {| min_size := 14; max_size := 17.9; weight_req := AnyWeight;
            case_req := AnyCase; min_length := 3 |}) ].

Definition digit (c : ascii) : bool := Py.between 48 57 c.

(** [[\W_]] *)
Definition nonword_or_underscore (c : ascii) : bool :=
  negb (word_char c) || Py.at_code 95 c.

(** [[\s\-_]] *)
Definition space_hyphen_underscore (c : ascii) : bool :=
  space_char c || Py.at_code 45 c || Py.at_code 95 c.

(** [[.,;!?]] *)
Definition punctuation (c : ascii) : bool := one_of (lit ".,;!?") c.

(** [self.ignore_patterns] *)
Definition ignore_patterns : list regex :=
  [ Bol >> Plus (Cls nonword_or_underscore) >> Eol;
    Bol >> Repeat 1 3 (Cls digit) >> Eol;
    Bol >> Group 1 (Word (lit "http") <|> Word (lit "www") <|> Word (lit ".com"));
    WordB >> Group 1 (Word (lit "rsvp") <|> Word (lit "date") <|> Word (lit "time")
                      <|> Word (lit "address")) >> Opt (Lit ":");
    Bol >> Star (Cls space_char) >> Eol ].

(** [self.special_cases] *)
Definition special_cases : list (regex * str) :=
  [ (Word (lit "hope") >> Star (Cls any_char) >> Word (lit "see")
       >> Star (Cls any_char) >> Word (lit "there"),
     lit "HOPE TO SEE YOU THERE!") ].

(** [[\s\-_]+$] *)
Definition trailing_junk : regex := Plus (Cls space_hyphen_underscore) >> Eol.

(** [(\w)\s+([.,;!?])] *)
Definition space_before_punct : regex :=
  Group 1 (Cls word_char) >> Plus (Cls space_char) >> Group 2 (Cls punctuation).

Definition clean_text (text : str) : str :=
  let text := Py.strip text in
  match find (fun sc => search true (fst sc) text) special_cases with
  | Some (_, replacement) => replacement
  | None =>
      let text := sub false trailing_junk [] text in
      let text := Py.join (lit " ") (Py.split text) in
      let text := sub false space_before_punct [TRef 1; TRef 2] text in
      text
  end.

Definition is_ignored_text (text : str) : bool :=
  let text_lower := Py.lower text in
  existsb (fun pattern => search false pattern text_lower) ignore_patterns.

Record span : Type :=
  { span_text : str; span_size : float; font : str; span_color : option Z }.

Record font_props : Type := { size : float; is_bold : bool; color : Z }.

(** [None] stands for the exception Python raises on an empty list. *)
Definition get_font_properties (spans : list span) : option font_props :=
  match Py.max_by (fun x => x) (map span_size spans), spans with
  | Some max_size, first :: _ =>
      Some {| size := max_size;
              is_bold := existsb (fun sp => Py.contains (lit "bold") (Py.lower (font sp))) spans;
              color := match span_color first with Some c => c | None => 0%Z end |}
  | _, _ => None
  end.

Definition compute_text_case (text : str) : text_case :=
  if Py.isupper text then Upper else if Py.istitle text then Title else AnyCase.

Definition profile_matches (text : str) (text_case : text_case)
    (props : font_props) (profile : profile) : bool :=
  let size_ok := (min_size profile <=? size props) && (size props <=? max_size profile) in
  let weight_ok :=
    match weight_req profile with
    | AnyWeight => true
    | Bold => is_bold props
    | Regular => negb (is_bold props)
    end in
  let case_ok :=
    text_case_eqb (case_req profile) AnyCase || text_case_eqb (case_req profile) text_case in
  let length_ok := (min_length profile <=? length text)%nat in
  size_ok && weight_ok && case_ok && length_ok.

Definition determine_heading_level (text : str) (props : font_props) : option level :=
  if is_ignored_text text then None
  else
    let text_case := compute_text_case text in
    match find (fun lp => profile_matches text text_case props (snd lp)) heading_profiles with
    | Some (level, _) => Some level
    | None =>
        let words := length (Py.split text) in
        if (14.0 <=? size props) && (size props <=? 16.5) && is_bold props
           && ((2 <=? words) && (words <=? 5))%nat
        then Some H2
        else if (20 <=? size props) && (10 <=? length text)%nat
        then Some H1
        else if (13.5 <=? size props) && (size props <=? 16.5) && (words <=? 6)%nat
        then Some H3
        else None
    end.

(** What the PDF library hands over: pages of blocks of lines of spans. *)
Record bbox : Type := { x0 : float; y0 : float; x1 : float; y1 : float }.

Record line : Type := { line_bbox : bbox; spans : list span }.

(** A block without the key ["lines"] is [None]. *)
Record block : Type := { lines : option (list line) }.

Record page : Type := { width : float; height : float; blocks : list block }.

Definition document : Type := list page.

Record element : Type :=
  { text : str; props : font_props; page_num : nat; el_bbox : bbox; center_pos : bool }.

Definition is_centered (x0 x1 width : float) : bool :=
  let line_width := x1 - x0 in
  let page_margin := width * 0.15 in
  ((page_margin <? x0) && (x1 <? width - page_margin)) || (width * 0.6 <=? line_width).

(** The body of the loop over lines: the element appended, if any. *)
Definition line_element (page_num : nat) (width : float) (l : line) : option element :=
  match spans l with
  | [] => None
  | _ :: _ =>
      let line_text := concat (map span_text (spans l)) in
      match get_font_properties (spans l) with
      | None => None
      | Some font_props =>
          let clean := clean_text line_text in
          match clean with
          | [] => None
          | _ :: _ =>
              Some {| text := clean; props := font_props; page_num := page_num;
                      el_bbox := line_bbox l;
                      center_pos := is_centered (x0 (line_bbox l)) (x1 (line_bbox l)) width |}
          end
      end
  end.

Definition option_list (A : Type) (o : option A) : list A :=
  match o with Some a => [a] | None => [] end.

Definition block_lines (b : block) : list line :=
  match lines b with Some ls => ls | None => [] end.

Definition page_elements (page_num : nat) (p : page) : list element :=
  flat_map
    (fun b => flat_map (fun l => option_list (line_element page_num (width p) l)) (block_lines b))
    (blocks p).

(** The loop over [range(len(doc))]: the elements gathered from page
    [page_num] on. *)
Fixpoint elements_from (page_num : nat) (doc : document) : list element :=
  match doc with
  | [] => []
  | p :: doc' => page_elements page_num p ++ elements_from (S page_num) doc'
  end.

(** The variable [height] after the loop over the pages: the height of the
    page visited last; unbound when the document has no page. *)
Definition height_after_loop (doc : document) : option float :=
  match rev doc with
  | [] => None
  | p :: _ => Some (height p)
  end.

Record entry : Type := { level_of : level; entry_text : str; entry_page : nat }.

Record result : Type := { title : str; outline : list entry }.

Definition detect_title (elements : list element) (height : float) : str :=
  let first_page_elements := filter (fun e => (page_num e =? 0)%nat) elements in
  let candidate :=
    Py.max_by (fun x => size (props x))
      (filter (fun e => center_pos e && (y0 (el_bbox e) <? height * 0.3))
              first_page_elements) in
  match candidate with
  | Some c => if (5 <=? length (text c))%nat then text c else []
  | None => []
  end.

Definition heading_entry (elem : element) : option entry :=
  match determine_heading_level (text elem) (props elem) with
  | Some level => Some {| level_of := level; entry_text := text elem;
                          entry_page := page_num elem |}
  | None => None
  end.

Definition extract_pdf_structure (doc : document) : result :=
  let elements := elements_from 0 doc in
  let title :=
    match elements, height_after_loop doc with
    | _ :: _, Some height => detect_title elements height
    | _, _ => []
    end in
  {| title := title;
     outline := flat_map (fun elem => option_list (heading_entry elem)) elements |}.

End PDFProcessor.

(** ** Properties of the program *)

Import PDFProcessor.
Local Open Scope float_scope.

(** *** Sample documents *)

Definition plain_span (t : string) (sz : float) (f : string) : span :=
  {| span_text := lit t; span_size := sz; font := lit f; span_color := None |}.

Definition one_line (t : string) (sz : float) (f : string) (left top right bottom : float) : line :=
  {| line_bbox := {| x0 := left; y0 := top; x1 := right; y1 := bottom |};
     spans := [plain_span t sz f] |}.

Definition one_block_page (w h : float) (ls : list line) : page :=
  {| width := w; height := h; blocks := [ {| lines := Some ls |} ] |}.

(** One page, 600 by 800, with a single centred line near the top. *)
Definition date_doc : document :=
  [ one_block_page 600 800 [ one_line "Date: 12 May" 28 "Helvetica-Bold" 200 50 400 80 ] ].

(** Two pages for title detection: the scenario page, and a short page to
    follow it. *)
Definition welcome_page : page :=
  one_block_page 600 800
    [ one_line "Welcome Party" 28 "Helvetica" 200 50 400 80;
      one_line "Agenda" 14 "Helvetica" 250 200 350 215 ].

Definition short_page : page :=
  one_block_page 600 100 [ one_line "Thanks for coming" 10 "Helvetica" 50 20 300 30 ].

(** *** The lines of a document in visiting order (C8) *)

(** The lines of a page, block after block. *)
Definition page_lines (p : page) : list line := flat_map block_lines (blocks p).

(** The lines of a document in the order the program visits them, each with
    the number and the width of its page. *)
Fixpoint visited_from (page_num : nat) (doc : document) : list (nat * float * line) :=
  match doc with
  | [] => []
  | p :: doc' =>
      map (fun l => (page_num, width p, l)) (page_lines p) ++ visited_from (S page_num) doc'
  end.

(** What one visited line contributes to the outline. *)
Definition line_entry (v : nat * float * line) : option entry :=
  let '(page_num, width, l) := v in
  match line_element page_num width l with
  | Some elem => heading_entry elem
  | None => None
  end.

(** *** Reference predicates for the case of a text (C4) *)










(** *** Reference notions for the text normaliser (C6) *)

(** Whether the text matches one of the special cases. *)
Definition special_case_hit (text : str) : bool :=
  existsb (fun sc => Re.search true (fst sc) text) special_cases.

(** [re.sub(r'(\w)\s+([.,;!?])', r'\1\2', text)] *)
Definition squeeze (text : str) : str :=
  Re.sub false space_before_punct [Re.TRef 1; Re.TRef 2] text.

(** The steps of [clean_text] after the special cases. *)
Definition tidy (text : str) : str :=
  squeeze (Py.join (lit " ") (Py.split (Re.sub false trailing_junk [] text))).

(** The character before the position a greedy run over [q] stops at. *)
Fixpoint run_end_prev (q : ascii -> bool) (p : option ascii) (s : str) : option ascii :=
  match s with
  | x :: s' => if q x then run_end_prev q (Some x) s' else p
  | [] => p
  end.

(** A position inside the run over [q] that starts [s]: on a character of
    [q], with the same end of run ahead. *)
Definition inside_run (q : ascii -> bool) (s : str) (st : Re.mstate) : Prop :=
  exists x r, Re.rest st = x :: r /\ q x = true /\ Py.dropwhile q r = Py.dropwhile q s.

(** Where [space_before_punct] matches at the head of a text: the word
    character, the punctuation character, and the text after the match. *)
Definition punct_match (s : str) : option (ascii * ascii * str) :=
  match s with
  | c :: x :: s2 =>
      if Re.word_char c && Re.space_char x
      then match Py.dropwhile Re.space_char s2 with
           | p :: s3 => if punctuation p then Some (c, p, s3) else None
           | [] => None
           end
      else None
  | _ => None
  end.

(** The text does not end in a character of [q]. *)
Fixpoint ends_without (q : ascii -> bool) (s : str) : bool :=
  match s with
  | [] => true
  | [c] => negb (q c)
  | _ :: s' => ends_without q s'
  end.

(** Words separated by single spaces: every whitespace character is a
    space, stands after a non-whitespace character ([after_space] is false
    there) and before another one. *)
Fixpoint spaced_from (after_space : bool) (s : str) : bool :=
  match s with
  | [] => negb after_space
  | c :: s' =>
      if Py.isspace c
      then negb after_space && Py.at_code 32 c && spaced_from true s'
      else spaced_from false s'
  end.

Definition single_spaced (s : str) : bool :=
  match s with
  | [] => true
  | _ :: _ => spaced_from true s
  end.

(** The canonical text of the one special case. *)
Definition canonical : str := lit "HOPE TO SEE YOU THERE!".

(** A text with a line feed between ["hope"] and ["see there"]. *)
Definition hope_on_two_lines : str := lit "hope" ++ ["010"%char] ++ lit "see there".

(** *** Reference notions for the special-case pattern (C6) *)

(** The text has no line feed. *)
Definition no_newline (s : str) : bool := forallb Re.any_char s.

(** The words of the pattern of the special case, in order. *)
Definition special_words : list str := [lit "hope"; lit "see"; lit "there"].

(** The rest of [s] after a head that spells [w] up to case. *)
Fixpoint spells (w s : str) : option str :=
  match w with
  | [] => Some s
  | l :: w' =>
      match s with
      | x :: s' => if Re.lit_matches true l x then spells w' s' else None
      | [] => None
      end
  end.

(** [k] holds of [s] after some head of [s] made of characters of [q]. *)
Fixpoint within_run (q : ascii -> bool) (k : str -> bool) (s : str) : bool :=
  k s || match s with
         | x :: s' => q x && within_run q k s'
         | [] => false
         end.

(** [k] holds of some tail of [s]. *)
Fixpoint anywhere (k : str -> bool) (s : str) : bool :=
  k s || match s with
         | _ :: s' => anywhere k s'
         | [] => false
         end.

Definition spelled_then (w : str) (k : str -> bool) (s : str) : bool :=
  match spells w s with
  | Some r => k r
  | None => false
  end.

(** Each word of [ws] in turn, after a run of characters other than the line
    feed: what [.*w1.*w2...] matches at the head of a text. *)
Fixpoint then_words (ws : list str) (s : str) : bool :=
  match ws with
  | [] => true
  | w :: ws' => within_run Re.any_char (spelled_then w (then_words ws')) s
  end.

(** The words of [ws] occur in [s] in this order, one after the other. *)
Fixpoint in_order (ws : list str) (s : str) : bool :=
  match ws with
  | [] => true
  | w :: ws' => anywhere (spelled_then w (in_order ws')) s
  end.

(** Whether a list of positions is empty. *)
Definition some_match (l : list Re.mstate) : bool :=
  match l with
  | [] => false
  | _ :: _ => true
  end.

(** Whether [F] matches depends on the text ahead only, as [k] says. *)
Definition rest_only (F : Re.mstate -> list Re.mstate) (k : str -> bool) : Prop :=
  forall st, some_match (F st) = k (Re.rest st).

(** Whitespace and punctuation: the characters next to which the
    normaliser may drop whitespace. *)
Definition soft (c : ascii) : bool := Py.isspace c || punctuation c.

Definition head_soft (c : str) : bool :=
  match c with
  | [] => true
  | y :: _ => soft y
  end.

(** A word of lowercase letters and other characters that are not soft. *)
Definition plain (w : str) : bool :=
  forallb (fun l => negb (soft l) && Py.eqb_char (Py.lower1 l) l) w.

(** [thinned b c s]: [c] is a head of [s] thinned out; whitespace is dropped
    only next to a soft character of [c] or at an end of [c], or replaced by
    a space.  [b] tells whether the character kept last was soft, or none. *)
Inductive thinned : bool -> str -> str -> Prop :=
| thin_end (b : bool) (s : str) : thinned b [] s
| thin_keep (b : bool) (x : ascii) (c s : str) :
    thinned (soft x) c s -> thinned b (x :: c) (x :: s)
| thin_space (b : bool) (x : ascii) (c s : str) :
    Py.isspace x = true -> thinned true c s -> thinned b (" "%char :: c) (x :: s)
| thin_skip (b : bool) (x : ascii) (c s : str) :
    Py.isspace x = true -> b || head_soft c = true -> thinned b c s -> thinned b c (x :: s).

(** *** Tactics *)

(** A fact about one character, settled on each of the 256 characters. *)
Ltac char_table c := destruct c as [[] [] [] [] [] [] [] []]; vm_compute; congruence.


(** *** Reference notions for fonts, titles and pages *)

(** A candidate for the title, given the height the threshold is taken from. *)
Definition title_candidate (height : float) (e : element) : bool :=
  (page_num e =? 0)%nat && (center_pos e && (y0 (el_bbox e) <? height * 0.3)%float).

(** An outline entry moved [k] pages on. *)
Definition shift_entry (k : nat) (e : entry) : entry :=
  {| level_of := level_of e; entry_text := entry_text e; entry_page := k + entry_page e |}.

(** The text of a line as the program assembles it from the spans. *)
Definition line_text (l : line) : str := concat (map span_text (spans l)).

(** A line that leaves no element: no span, or nothing left after cleaning. *)
Definition blank_line (l : line) : bool :=
  match spans l with
  | [] => true
  | _ :: _ => match clean_text (line_text l) with [] => true | _ :: _ => false end
  end.

(** A page whose only text is whitespace, beside a block without lines and a
    line without spans. *)
Definition blank_page : page :=
  {| width := 600; height := 800;
     blocks := [ {| lines := None |};
                 {| lines := Some [ {| line_bbox := {| x0 := 0; y0 := 0; x1 := 0; y1 := 0 |};
                                       spans := [] |};
                                    one_line "   " 12 "Helvetica" 10 10 20 20 ] |} ] |}.

(** A second page as high as [welcome_page], with one large line at its top. *)
Definition closing_page : page :=
  one_block_page 600 800 [ one_line "Closing Remarks" 30 "Helvetica-Bold" 200 40 400 70 ].

(** *** The ignore patterns, read directly (reference notions) *)

(** [k] holds at some position of [s]; [p] is the character before [s]. *)
Fixpoint anywhere_from (k : option ascii -> str -> bool) (p : option ascii) (s : str) : bool :=
  k p s || match s with
           | c :: s' => anywhere_from k (Some c) s'
           | [] => false
           end.

(** Whether [F] matches depends on the position only, as [k] says. *)
Definition matches_as (F : Re.mstate -> list Re.mstate)
    (k : option ascii -> str -> bool) : Prop :=
  forall st, some_match (F st) = k (Re.prev st) (Re.rest st).

Definition at_start (p : option ascii) : bool :=
  match p with
  | None => true
  | Some _ => false
  end.

(** A text of non-word characters and underscores, at least one. *)
Definition only_marks (s : str) : bool :=
  match s with
  | [] => false
  | _ :: _ => forallb nonword_or_underscore s
  end.

(** One to three digits, then the end of the text or one line feed before it. *)
Definition short_number (s : str) : bool :=
  match s with
  | d1 :: r1 =>
      digit d1
      && (Re.at_eol r1
          || match r1 with
             | d2 :: r2 =>
                 digit d2
                 && (Re.at_eol r2
                     || match r2 with
                        | d3 :: r3 => digit d3 && Re.at_eol r3
                        | [] => false
                        end)
             | [] => false
             end)
  | [] => false
  end.

Definition web_address (s : str) : bool :=
  Py.startswith (lit "http") s || Py.startswith (lit "www") s
  || Py.startswith (lit ".com") s.

Definition label_words : list str := [lit "rsvp"; lit "date"; lit "time"; lit "address"].

(** A label word starts here, and the character before is no word character. *)
Definition label_here (p : option ascii) (s : str) : bool :=
  negb (Re.is_word_opt p) && existsb (fun w => Py.startswith w s) label_words.

Definition has_label (s : str) : bool := anywhere_from label_here None s.

Definition only_spaces (s : str) : bool := forallb Py.isspace s.

(** What [is_ignored_text] asks of the lowercased text. *)
Definition ignored_directly (s : str) : bool :=
  only_marks s || short_number s || web_address s || has_label s || only_spaces s.

(** The character a text ends in, or [p] for the empty text. *)
Fixpoint last_char (p : option ascii) (s : str) : option ascii :=
  match s with
  | [] => p
  | c :: s' => last_char (Some c) s'
  end.

Definition line_feed : ascii := "010"%char.

Definition web_words : list str := [lit "http"; lit "www"; lit ".com"].

(** The five forms of a text that is ignored, spelled out. *)
Definition ignored_shape (s : str) : Prop :=
  (s <> [] /\ forallb nonword_or_underscore s = true)
  \/ (exists ds tail,
        s = ds ++ tail /\ (1 <= length ds <= 3)%nat /\ forallb digit ds = true
        /\ (tail = [] \/ tail = [line_feed]))
  \/ (exists w r, In w web_words /\ s = w ++ r)
  \/ (exists pre w r,
        In w label_words /\ s = pre ++ w ++ r
        /\ Re.is_word_opt (last_char None pre) = false)
  \/ forallb Py.isspace s = true.

(** A text that holds the three words of the special case in order. *)
Definition hope_line : str := lit "We hope to see you there".
(** *** The scenarios of the program on small inputs *)

Example clean_text_space_before_punct :
  clean_text (lit "  The   end .  ") = lit "The end.".
Proof. vm_compute. reflexivity. Qed.

Example clean_text_trailing_junk : clean_text (lit "Agenda -_-") = lit "Agenda".
Proof. vm_compute. reflexivity. Qed.

Example clean_text_special_case :
  clean_text (lit "We Hope to see you There") = lit "HOPE TO SEE YOU THERE!".
Proof. vm_compute. reflexivity. Qed.

Example ignored_samples :
  map is_ignored_text
    [lit "---"; lit "42"; lit "1234"; lit "http://x.org"; lit "RSVP: today"; lit "Update";
     lit "   "; lit "Agenda"]
  = [true; true; false; true; true; false; true; false].
Proof. vm_compute. reflexivity. Qed.

Example text_case_samples :
  map compute_text_case
    [lit "INTRODUCTION"; lit "Welcome Party"; lit "Welcome party"; lit "A1 B2"; lit "42"]
  = [Upper; Title; AnyCase; Upper; AnyCase].
Proof. vm_compute. reflexivity. Qed.

Example heading_samples :
  map (fun tp => determine_heading_level (fst tp)
                   {| size := fst (snd tp); is_bold := snd (snd tp); color := 0 |})
    [(lit "INTRODUCTION", (19, true)); (lit "Note", (19, true));
     (lit "Overview of the day", (15, false));
     (lit "A long plain sentence at size twenty", (20, false));
     (lit "Body text", (11, false))]
  = [Some H1; Some H2; Some H3; Some H1; None].
Proof. vm_compute. reflexivity. Qed.

(** The title branch reads [height] only when there are elements, and then
    the loop over the pages has bound it. *)
Lemma elements_need_a_page (n : nat) (doc : document) :
  elements_from n doc <> [] -> height_after_loop doc <> None.
Proof.
  destruct doc as [|p doc]; [intros H; contradiction H; reflexivity|].
  intros _. unfold height_after_loop. cbn [rev].
  destruct (rev doc) as [|q l]; discriminate.
Qed.

(** *** The ignore filter is a veto for headings (C1, C3) *)

Lemma ignored_gives_none (text : str) (props : font_props) :
  is_ignored_text text = true -> determine_heading_level text props = None.
Proof.
  intros H. unfold determine_heading_level. rewrite H. reflexivity.
Qed.

Lemma heading_not_ignored (text : str) (props : font_props) (l : level) :
  determine_heading_level text props = Some l -> is_ignored_text text = false.
Proof.
  intros H. destruct (is_ignored_text text) eqn:E; [|reflexivity].
  rewrite (ignored_gives_none _ _ E) in H. discriminate.
Qed.

Lemma outline_entry_from_element (doc : document) (e : entry) :
  In e (outline (extract_pdf_structure doc)) ->
  exists elem, In elem (elements_from 0 doc) /\ heading_entry elem = Some e.
Proof.
  unfold extract_pdf_structure. cbn [outline]. intros H.
  apply in_flat_map in H. destruct H as [elem [Hin He]].
  exists elem. split; [exact Hin|].
  destruct (heading_entry elem) as [e'|]; cbn in He; [|contradiction].
  destruct He as [->|[]]. reflexivity.
Qed.

Lemma outline_text_not_ignored (doc : document) (e : entry) :
  In e (outline (extract_pdf_structure doc)) -> is_ignored_text (entry_text e) = false.
Proof.
  intros H. apply outline_entry_from_element in H. destruct H as [elem [_ He]].
  unfold heading_entry in He.
  destruct (determine_heading_level (text elem) (props elem)) as [l|] eqn:E; [|discriminate].
  injection He as <-. cbn. eapply heading_not_ignored. exact E.
Qed.

(** C1, as amended: a text that [is_ignored_text] accepts is never classified
    as a heading; [determine_heading_level] returns [None] for it and no
    outline entry of any document carries it.  (Title detection applies no
    such filter.) *)
Theorem ignored_text_never_heading (doc : document) (text : str) (props : font_props) :
  is_ignored_text text = true ->
  determine_heading_level text props = None
  /\ ~ In text (map entry_text (outline (extract_pdf_structure doc))).
Proof.
  intros H. split.
  - apply ignored_gives_none. exact H.
  - intros Hin. apply in_map_iff in Hin. destruct Hin as [e [<- He]].
    apply outline_text_not_ignored in He. congruence.
Qed.

Lemma ignored_text_never_heading_witness :
  is_ignored_text (lit "Date: 12 May") = true
  /\ determine_heading_level (lit "Date: 12 May")
       {| size := 28; is_bold := true; color := 0 |} = None
  /\ ~ In (lit "Date: 12 May") (map entry_text (outline (extract_pdf_structure date_doc))).
Proof.
  split; [vm_compute; reflexivity|].
  apply (ignored_text_never_heading date_doc (lit "Date: 12 May")
           {| size := 28; is_bold := true; color := 0 |}).
  vm_compute. reflexivity.
Defined.

(** C1, the part that fails: the only line of [date_doc] is ignored text, and
    it is the title of the document. *)
Lemma ignored_text_becomes_title :
  is_ignored_text (lit "Date: 12 May") = true
  /\ title (extract_pdf_structure date_doc) = lit "Date: 12 May".
Proof. vm_compute. split; reflexivity. Qed.

(** C3, the part that fails: no ignore pattern matches ["1."]. *)
Lemma one_dot_is_not_ignored : is_ignored_text (lit "1.") = false.
Proof. vm_compute. reflexivity. Qed.

(** C3, as amended: ["1."] is not ignored text, and at size 12 it is still
    no heading, whatever the weight and the colour, because no profile and
    no fallback rule admits size 12. *)
Theorem one_dot_size12_no_heading :
  is_ignored_text (lit "1.") = false
  /\ forall (b : bool) (c : Z),
       determine_heading_level (lit "1.") {| size := 12; is_bold := b; color := c |} = None.
Proof.
  split; [vm_compute; reflexivity|].
  intros b c. destruct b; vm_compute; reflexivity.
Qed.

(** *** Rule order and weights (C5, C9) *)

(** C5: a text that is not ignored, of five characters or more, at size 19
    in bold is an H1: the H1 profile is tried first and matches. *)
Theorem size19_bold_is_H1 (text : str) (props : font_props) :
  is_ignored_text text = false ->
  (5 <= length text)%nat ->
  size props = 19 ->
  is_bold props = true ->
  determine_heading_level text props = Some H1.
Proof.
  intros Hign Hlen Hsize Hbold.
  unfold determine_heading_level. rewrite Hign.
  unfold heading_profiles, find, profile_matches.
  cbn [snd fst min_size max_size weight_req case_req min_length text_case_eqb].
  rewrite Hsize, Hbold.
  replace (17.5 <=? 19) with true by reflexivity.
  replace (19 <=? infinity) with true by reflexivity.
  apply Nat.leb_le in Hlen. rewrite Hlen. reflexivity.
Qed.

Lemma size19_bold_is_H1_witness :
  is_ignored_text (lit "INTRODUCTION") = false
  /\ (5 <= length (lit "INTRODUCTION"))%nat
  /\ determine_heading_level (lit "INTRODUCTION")
       {| size := 19; is_bold := true; color := 0 |} = Some H1.
Proof.
  split; [vm_compute; reflexivity|].
  split; [vm_compute; lia|].
  apply size19_bold_is_H1.
  - vm_compute. reflexivity.
  - vm_compute. lia.
  - reflexivity.
  - reflexivity.
Defined.

(** C9: [determine_heading_level] answers H2 only for a bold font profile. *)
Theorem h2_only_if_bold (text : str) (props : font_props) :
  determine_heading_level text props = Some H2 -> is_bold props = true.
Proof.
  unfold determine_heading_level.
  destruct (is_ignored_text text); [discriminate|].
  destruct (is_bold props) eqn:Hbold; [intros _; reflexivity|].
  unfold heading_profiles, find, profile_matches.
  cbn [snd fst min_size max_size weight_req case_req min_length text_case_eqb].
  rewrite Hbold. rewrite !andb_false_r. cbn [andb orb].
  repeat match goal with |- context [if ?c then _ else _] => destruct c end;
    discriminate.
Qed.

Lemma h2_only_if_bold_witness :
  determine_heading_level (lit "Note") {| size := 19; is_bold := true; color := 0 |} = Some H2
  /\ is_bold {| size := 19; is_bold := true; color := 0 |} = true.
Proof.
  split; [vm_compute; reflexivity|].
  apply (h2_only_if_bold (lit "Note")). vm_compute. reflexivity.
Defined.

(** *** Centring (C7) *)

(** C7: a line is centred exactly when both of its ends lie more than 15% of
    the page width inside the page, or it is at least 60% of the page width
    long; a line from 250 to 350 on a page 600 wide is centred. *)
Theorem is_centered_spec :
  (forall x0 x1 width : float,
      is_centered x0 x1 width = true <->
      (((width * 0.15 <? x0) = true /\ (x1 <? width - width * 0.15) = true)
       \/ (width * 0.6 <=? x1 - x0) = true))
  /\ is_centered 250 350 600 = true.
Proof.
  split; [|reflexivity].
  intros a b w. unfold is_centered. cbv zeta.
  rewrite orb_true_iff, andb_true_iff. reflexivity.
Qed.

(** *** Title detection (C2) *)

(** Whatever the pages before it, the page read last supplies the height the
    title threshold is computed from. *)
Lemma title_reads_last_height (doc : document) (p : page) :
  title (extract_pdf_structure (doc ++ [p]))
  = match elements_from 0 (doc ++ [p]) with
    | [] => []
    | _ :: _ => detect_title (elements_from 0 (doc ++ [p])) (height p)
    end.
Proof.
  unfold extract_pdf_structure, height_after_loop. cbn [title].
  rewrite rev_app_distr. cbn [rev app].
  destruct (elements_from 0 (doc ++ [p])); reflexivity.
Qed.

(** C2: the threshold of title detection is 30% of the height of the page
    read last.  With the one page of the scenario the title is
    ["Welcome Party"]; once a second page 100 high follows, no line of page 0
    lies above 30, and the title is empty. *)
Theorem title_threshold_is_last_page_height :
  title (extract_pdf_structure [welcome_page]) = lit "Welcome Party"
  /\ title (extract_pdf_structure [welcome_page; short_page]) = [].
Proof. vm_compute. split; reflexivity. Qed.

(** *** The smallest size of a heading (C10) *)

Lemma SF_lt_le_not_le (x a b : spec_float) :
  SFltb x a = true -> SFleb a b = true -> SFleb b x = false.
Proof.
  unfold SFltb, SFleb, SFcompare.
  destruct x as [sx|sx| |sx mx ex], a as [sa|sa| |sa ma ea], b as [sb|sb| |sb mb eb];
    try destruct sx; try destruct sa; try destruct sb;
    try discriminate; try reflexivity;
    change (Pos.compare_cont Eq) with Pos.compare;
    repeat match goal with
      | |- context [Z.compare ?u ?v] => destruct (Z.compare_spec u v)
      | |- context [Pos.compare ?u ?v] => destruct (Pos.compare_spec u v)
      end;
    cbn; try discriminate; try reflexivity; intros; exfalso; lia.
Qed.

Lemma float_lt_le_not_le (x a b : float) :
  (x <? a) = true -> (a <=? b) = true -> (b <=? x) = false.
Proof.
  rewrite ltb_spec, !leb_spec. apply SF_lt_le_not_le.
Qed.

(** C10: below size 13.5 nothing is a heading. *)
Theorem below_13_5_no_heading (text : str) (props : font_props) :
  (size props <? 13.5) = true -> determine_heading_level text props = None.
Proof.
  intros Hsize. unfold determine_heading_level.
  destruct (is_ignored_text text); [reflexivity|].
  unfold heading_profiles, find, profile_matches.
  cbn [snd fst min_size max_size weight_req case_req min_length text_case_eqb].
  rewrite (float_lt_le_not_le (b := 17.5) Hsize eq_refl).
  rewrite (float_lt_le_not_le (b := 18) Hsize eq_refl).
  rewrite (float_lt_le_not_le (b := 14) Hsize eq_refl).
  rewrite (float_lt_le_not_le (b := 20) Hsize eq_refl).
  rewrite (float_lt_le_not_le (b := 13.5) Hsize eq_refl).
  reflexivity.
Qed.

(** The bound is reached: at size 13.5 the H3 fallback rule applies. *)
Example size_13_5_is_a_heading :
  determine_heading_level (lit "Summary") {| size := 13.5; is_bold := false; color := 0 |}
  = Some H3.
Proof. vm_compute. reflexivity. Qed.

Lemma below_13_5_no_heading_witness :
  (12 <? 13.5) = true
  /\ determine_heading_level (lit "Chapter One")
       {| size := 12; is_bold := true; color := 0 |} = None.
Proof.
  split; [reflexivity|].
  apply below_13_5_no_heading. reflexivity.
Defined.

(** *** The outline follows the order of the lines (C8) *)

Lemma flat_map_flat_map (A B C : Type) (f : B -> list C) (g : A -> list B) (l : list A) :
  flat_map f (flat_map g l) = flat_map (fun x => flat_map f (g x)) l.
Proof.
  induction l as [|a l IH]; cbn; [reflexivity|].
  rewrite flat_map_app, IH. reflexivity.
Qed.

Lemma flat_map_map (A B C : Type) (f : B -> list C) (g : A -> B) (l : list A) :
  flat_map f (map g l) = flat_map (fun x => f (g x)) l.
Proof.
  induction l as [|a l IH]; cbn; [reflexivity|]. rewrite IH. reflexivity.
Qed.

Lemma flat_map_option_list (B C : Type) (f : B -> list C) (o : option B) :
  flat_map f (option_list o) = match o with Some b => f b | None => [] end.
Proof.
  destruct o; cbn; [apply app_nil_r|reflexivity].
Qed.

Lemma page_outline_by_line (n : nat) (p : page) :
  flat_map (fun elem => option_list (heading_entry elem)) (page_elements n p)
  = flat_map (fun v => option_list (line_entry v))
      (map (fun l => (n, width p, l)) (page_lines p)).
Proof.
  unfold page_elements, page_lines.
  rewrite flat_map_map, !flat_map_flat_map.
  apply flat_map_ext. intros b.
  rewrite flat_map_flat_map.
  apply flat_map_ext. intros l.
  rewrite flat_map_option_list. unfold line_entry.
  destruct (line_element n (width p) l); reflexivity.
Qed.

Lemma outline_by_line_from (n : nat) (doc : document) :
  flat_map (fun elem => option_list (heading_entry elem)) (elements_from n doc)
  = flat_map (fun v => option_list (line_entry v)) (visited_from n doc).
Proof.
  revert n. induction doc as [|p doc IH]; intros n; cbn [elements_from visited_from];
    [reflexivity|].
  rewrite !flat_map_app, IH, page_outline_by_line. reflexivity.
Qed.

Lemma line_entry_page_text (n : nat) (w : float) (l : line) (e : entry) :
  line_entry (n, w, l) = Some e ->
  entry_page e = n /\ entry_text e = clean_text (concat (map span_text (spans l))).
Proof.
  unfold line_entry, line_element, heading_entry.
  destruct (spans l) as [|sp sps]; [discriminate|].
  destruct (get_font_properties (sp :: sps)) as [fp|]; [|discriminate].
  destruct (clean_text (concat (map span_text (sp :: sps)))) as [|c cs]; [discriminate|].
  cbn [text props page_num].
  destruct (determine_heading_level (c :: cs) fp); [|discriminate].
  intros H. injection H as <-. split; reflexivity.
Qed.

Lemma visited_pages_from (n : nat) (doc : document) (v : nat * float * line) :
  In v (visited_from n doc) -> n <= fst (fst v).
Proof.
  revert n. induction doc as [|p doc IH]; intros n; cbn [visited_from]; [intros []|].
  rewrite in_app_iff, in_map_iff. intros [[l [<- _]]|H]; cbn; [lia|].
  apply IH in H. lia.
Qed.

Lemma visited_pages_ascend (n : nat) (doc : document) :
  StronglySorted le (map (fun v => fst (fst v)) (visited_from n doc)).
Proof.
  revert n. induction doc as [|p doc IH]; intros n; cbn [visited_from]; [constructor|].
  rewrite map_app, map_map. cbn [fst].
  induction (page_lines p) as [|l ls IHl]; cbn [map app]; [apply IH|].
  constructor; [exact IHl|].
  apply Forall_forall. intros m Hm. apply in_app_iff in Hm.
  destruct Hm as [Hm|Hm].
  - apply in_map_iff in Hm. destruct Hm as [_ [<- _]]. lia.
  - apply in_map_iff in Hm. destruct Hm as [v [<- Hv]].
    apply visited_pages_from in Hv. lia.
Qed.

(** C8: the outline is the concatenation, over the lines in visiting order
    (pages ascending, lines in page order), of what each line contributes on
    its own: at most one entry, with the line's page and cleaned text.
    Nothing is reordered, dropped as a duplicate or merged. *)
Theorem outline_in_line_order (doc : document) :
  outline (extract_pdf_structure doc)
  = flat_map (fun v => option_list (line_entry v)) (visited_from 0 doc)
  /\ StronglySorted le (map (fun v => fst (fst v)) (visited_from 0 doc))
  /\ (forall n w l e, line_entry (n, w, l) = Some e ->
        entry_page e = n /\ entry_text e = clean_text (concat (map span_text (spans l)))).
Proof.
  split; [|split].
  - unfold extract_pdf_structure. cbn [outline]. apply outline_by_line_from.
  - apply visited_pages_ascend.
  - apply line_entry_page_text.
Qed.

(** *** The case of a text (C4) *)












(** *** Runs of a character class, and stripping at the right end *)

Import Re.
Local Close Scope float_scope.

Section ClassRuns.

Variable q : ascii -> bool.

Lemma dropwhile_all (s : str) : forallb q s = true -> Py.dropwhile q s = [].
Proof.
  induction s as [|c s IH]; cbn; [reflexivity|].
  destruct (q c); cbn; [exact IH|discriminate].
Qed.

Lemma dropwhile_not_all (s : str) :
  forallb q s = false -> exists d r, Py.dropwhile q s = d :: r /\ q d = false.
Proof.
  induction s as [|c s IH]; cbn; [discriminate|].
  destruct (q c) eqn:Hc; cbn; [exact IH|].
  intros _. exists c, s. split; [reflexivity|exact Hc].
Qed.

Lemma dropwhile_app (a b : str) :
  Py.dropwhile q (a ++ b)
  = if forallb q a then Py.dropwhile q b else Py.dropwhile q a ++ b.
Proof.
  induction a as [|c a IH]; cbn; [reflexivity|].
  destruct (q c); cbn; [exact IH|reflexivity].
Qed.

Lemma dropwhile_split (s : str) :
  exists a, s = a ++ Py.dropwhile q s /\ forallb q a = true.
Proof.
  induction s as [|c s [a [E Ha]]]; [exists []; split; reflexivity|].
  cbn [Py.dropwhile]. destruct (q c) eqn:Hc.
  - exists (c :: a). split; [cbn; rewrite <- E; reflexivity|cbn; rewrite Hc; exact Ha].
  - exists []. split; reflexivity.
Qed.

Lemma forallb_rev (s : str) : forallb q (rev s) = forallb q s.
Proof.
  induction s as [|c s IH]; cbn; [reflexivity|].
  rewrite forallb_app, IH. cbn. rewrite andb_true_r. apply andb_comm.
Qed.

Lemma rstrip_cons (c : ascii) (s : str) :
  Py.rstrip_by q (c :: s)
  = if forallb q s then (if q c then [] else [c]) else c :: Py.rstrip_by q s.
Proof.
  unfold Py.rstrip_by. cbn [rev]. rewrite dropwhile_app, forallb_rev.
  destruct (forallb q s).
  - cbn. destruct (q c); reflexivity.
  - rewrite rev_app_distr. reflexivity.
Qed.

Lemma rstrip_all (s : str) : forallb q s = true -> Py.rstrip_by q s = [].
Proof.
  intros H. unfold Py.rstrip_by. rewrite dropwhile_all; [reflexivity|].
  rewrite forallb_rev. exact H.
Qed.

Lemma ends_without_cons (c : ascii) (s : str) :
  s <> [] -> ends_without q (c :: s) = ends_without q s.
Proof.
  destruct s; [contradiction|reflexivity].
Qed.

Lemma ends_without_app (l s : str) :
  s <> [] -> ends_without q (l ++ s) = ends_without q s.
Proof.
  intros Hs. induction l as [|y l IH]; [reflexivity|].
  cbn [app]. rewrite ends_without_cons; [exact IH|].
  destruct l, s; try discriminate. contradiction.
Qed.

Lemma ends_without_not_all (s : str) :
  s <> [] -> ends_without q s = true -> forallb q s = false.
Proof.
  induction s as [|c s IH]; [contradiction|]. intros _.
  destruct s as [|d s].
  - cbn. destruct (q c); [discriminate|reflexivity].
  - rewrite ends_without_cons by discriminate. intros H.
    change (forallb q (c :: d :: s)) with (q c && forallb q (d :: s)).
    rewrite IH; [apply andb_false_r|discriminate|exact H].
Qed.

Lemma rstrip_fixed (s : str) : ends_without q s = true -> Py.rstrip_by q s = s.
Proof.
  induction s as [|c s IH]; [reflexivity|].
  rewrite rstrip_cons. destruct s as [|d s].
  - cbn. destruct (q c); [discriminate|reflexivity].
  - rewrite ends_without_cons by discriminate. intros H.
    rewrite (@ends_without_not_all (d :: s)), (IH H); [reflexivity|discriminate|exact H].
Qed.

Lemma rstrip_ends_without (s : str) : ends_without q (Py.rstrip_by q s) = true.
Proof.
  induction s as [|c s IH]; [reflexivity|].
  rewrite rstrip_cons. destruct (forallb q s) eqn:Hall.
  - destruct (q c) eqn:Hc; cbn; [reflexivity|rewrite Hc; reflexivity].
  - destruct (Py.rstrip_by q s) as [|d r] eqn:E; [|exact IH].
    exfalso. clear IH. revert Hall E. rewrite <- (forallb_rev s).
    unfold Py.rstrip_by. intros Hall E.
    destruct (dropwhile_not_all _ Hall) as [d [r [Hd _]]].
    rewrite Hd in E. cbn in E. destruct (rev r); discriminate.
Qed.

End ClassRuns.

(** *** The matcher on runs of a character class *)

Lemma run_cat (ic : bool) (r1 r2 : regex) (st : mstate) :
  run ic (Cat r1 r2) st = flat_map (run ic r2) (run ic r1 st).
Proof. reflexivity. Qed.

Lemma run_cls (ic : bool) (q : ascii -> bool) (p : option ascii) (x : ascii) (s : str)
    (gs : list (nat * str)) :
  run ic (Cls q) {| prev := p; rest := x :: s; groups := gs |}
  = if q x then [{| prev := Some x; rest := s; groups := gs |}] else [].
Proof. reflexivity. Qed.

Lemma run_star (ic : bool) (r : regex) (st : mstate) :
  run ic (Star r) st = star_loop (run ic r) (length (rest st)) st.
Proof. reflexivity. Qed.

Lemma run_eol (ic : bool) (st : mstate) :
  run ic Eol st = if at_eol (rest st) then [st] else [].
Proof. reflexivity. Qed.

Lemma run_group (ic : bool) (i : nat) (r : regex) (st : mstate) :
  run ic (Group i r) st = map (capture i st) (run ic r st).
Proof. reflexivity. Qed.

Lemma star_loop_S (body : mstate -> list mstate) (fuel : nat) (st : mstate) :
  star_loop body (S fuel) st
  = flat_map (fun st' => if (length (rest st') <? length (rest st))
                         then star_loop body fuel st' else [])
      (body st)
    ++ [st].
Proof. reflexivity. Qed.

Lemma star_cls_shape (ic : bool) (q : ascii -> bool) (fuel : nat) :
  forall (p : option ascii) (s : str) (gs : list (nat * str)),
    length s <= fuel ->
    exists tl,
      star_loop (run ic (Cls q)) fuel {| prev := p; rest := s; groups := gs |}
      = {| prev := run_end_prev q p s; rest := Py.dropwhile q s; groups := gs |} :: tl
      /\ Forall (inside_run q s) tl.
Proof.
  induction fuel as [|fuel IH]; intros p s gs Hlen.
  - destruct s; [|cbn in Hlen; lia]. exists []. split; [reflexivity|constructor].
  - destruct s as [|x s'].
    + exists []. split; [reflexivity|constructor].
    + rewrite star_loop_S.
      change (run ic (Cls q) {| prev := p; rest := x :: s'; groups := gs |})
        with (if q x then [{| prev := Some x; rest := s'; groups := gs |}] else []).
      cbn [Py.dropwhile run_end_prev].
      destruct (q x) eqn:Hx.
      * cbn [flat_map rest app].
        replace (length s' <? length (x :: s')) with true
          by (symmetry; apply Nat.ltb_lt; cbn; lia).
        destruct (IH (Some x) s' gs) as [tl [E Htl]]; [cbn in Hlen; lia|].
        rewrite E, app_nil_r. cbn [app].
        eexists. split; [reflexivity|].
        apply Forall_app. split.
        -- eapply Forall_impl; [|exact Htl].
           intros st [y [r [Hr [Hy Hd]]]]. exists y, r.
           split; [exact Hr|]. split; [exact Hy|].
           rewrite Hd. cbn. rewrite Hx. reflexivity.
        -- constructor; [|constructor]. exists x, s'. cbn. rewrite Hx. auto.
      * exists []. split; [reflexivity|constructor].
Qed.

Lemma flat_map_all_nil (A B : Type) (f : A -> list B) (l : list A) :
  Forall (fun a => f a = []) l -> flat_map f l = [].
Proof.
  induction 1 as [|a l Ha _ IH]; cbn; [reflexivity|]. rewrite Ha, IH. reflexivity.
Qed.

(** [[\s\-_]+$] at a position. *)

Lemma newline_is_junk (c : ascii) : Py.at_code 10 c = true -> space_hyphen_underscore c = true.
Proof.
  char_table c.
Qed.

Lemma run_junk_all (p : option ascii) (s : str) :
  s <> [] -> forallb space_hyphen_underscore s = true ->
  exists m tl, run false trailing_junk (start p s) = m :: tl /\ rest m = [].
Proof.
  intros Hne Hall. destruct s as [|x s']; [contradiction|].
  cbn in Hall. apply andb_true_iff in Hall. destruct Hall as [Hx Hs'].
  unfold trailing_junk, Plus, start.
  rewrite !run_cat, run_cls, Hx. cbn [flat_map]. rewrite run_star. cbn [rest].
  destruct (star_cls_shape false space_hyphen_underscore (Some x) s' [] (le_n _))
    as [tl [E _]].
  rewrite E, app_nil_r. cbn [flat_map]. rewrite (dropwhile_all _ _ Hs').
  rewrite run_eol. cbn [rest at_eol app]. eexists. eexists. split; reflexivity.
Qed.

Lemma run_junk_none (p : option ascii) (s : str) :
  forallb space_hyphen_underscore s = false ->
  run false trailing_junk (start p s) = [].
Proof.
  intros Hall. destruct s as [|x s']; [discriminate|].
  unfold trailing_junk, Plus, start.
  rewrite !run_cat, run_cls.
  destruct (space_hyphen_underscore x) eqn:Hx; [|reflexivity].
  cbn in Hall. rewrite Hx in Hall. cbn in Hall.
  cbn [flat_map]. rewrite run_star. cbn [rest].
  destruct (star_cls_shape false space_hyphen_underscore (Some x) s' [] (le_n _))
    as [tl [E Htl]].
  rewrite E, app_nil_r.
  destruct (dropwhile_not_all _ _ Hall) as [d [r [Hd Hqd]]].
  apply flat_map_all_nil. constructor.
  - rewrite run_eol. cbn [rest]. rewrite Hd.
    destruct r as [|y r]; [|reflexivity].
    cbn [at_eol]. destruct (Py.at_code 10 d) eqn:Hnl; [|reflexivity].
    apply newline_is_junk in Hnl. congruence.
  - eapply Forall_impl; [|exact Htl].
    intros st [y [r' [Hr [_ Hdr]]]]. rewrite run_eol, Hr.
    destruct r' as [|z r']; [|reflexivity].
    cbn in Hdr. rewrite Hd in Hdr. discriminate.
Qed.

(** *** Substitution, one position at a time *)

Lemma sub_from_skip (ic : bool) (r : regex) (t : list titem) (p : option ascii)
    (c : ascii) (s : str) (k : nat) :
  sub_from ic r t p (c :: s) (S k) = sub_from ic r t (Some c) s k.
Proof. reflexivity. Qed.

Lemma sub_from_no_match (ic : bool) (r : regex) (t : list titem) (p : option ascii)
    (c : ascii) (s : str) :
  run ic r (start p (c :: s)) = [] ->
  sub_from ic r t p (c :: s) 0 = c :: sub_from ic r t (Some c) s 0.
Proof.
  intros H. cbn [sub_from]. rewrite H. reflexivity.
Qed.

Lemma sub_from_match (ic : bool) (r : regex) (t : list titem) (p : option ascii)
    (c : ascii) (s : str) (m : mstate) (tl : list mstate) (k : nat) :
  run ic r (start p (c :: s)) = m :: tl ->
  consumed (c :: s) m = S k ->
  sub_from ic r t p (c :: s) 0 = expand t m ++ sub_from ic r t (Some c) s k.
Proof.
  intros H Hk. cbn [sub_from]. rewrite H, Hk. reflexivity.
Qed.

Lemma sub_from_skip_app (ic : bool) (r : regex) (t : list titem) (a b : str) :
  forall p, exists p', sub_from ic r t p (a ++ b) (length a) = sub_from ic r t p' b 0.
Proof.
  induction a as [|c a IH]; intros p.
  - exists p. reflexivity.
  - cbn [app length]. rewrite sub_from_skip. apply IH.
Qed.

(** [re.sub(r'[\s\-_]+$', '', text)] strips the trailing run. *)

Lemma sub_junk_skip_all (s : str) :
  forall p, sub_from false trailing_junk [] p s (length s) = [].
Proof.
  induction s as [|c s IH]; intros p; [reflexivity|].
  cbn [length]. rewrite sub_from_skip. apply IH.
Qed.

Lemma sub_junk_from (s : str) :
  forall p, sub_from false trailing_junk [] p s 0 = Py.rstrip_by space_hyphen_underscore s.
Proof.
  induction s as [|c s IH]; intros p; [reflexivity|].
  destruct (forallb space_hyphen_underscore (c :: s)) eqn:Hall.
  - destruct (@run_junk_all p (c :: s)) as [m [tl [E Hm]]]; [discriminate|exact Hall|].
    rewrite (@sub_from_match false trailing_junk [] p c s m tl (length s) E).
    + rewrite sub_junk_skip_all, rstrip_all by exact Hall. reflexivity.
    + unfold consumed. rewrite Hm. reflexivity.
  - rewrite (@sub_from_no_match false trailing_junk [] p c s (@run_junk_none p (c :: s) Hall)),
      IH, rstrip_cons.
    cbn in Hall. destruct (forallb space_hyphen_underscore s) eqn:Hs.
    + rewrite andb_true_r in Hall. rewrite Hall, rstrip_all by exact Hs. reflexivity.
    + reflexivity.
Qed.

Lemma sub_junk (s : str) :
  sub false trailing_junk [] s = Py.rstrip_by space_hyphen_underscore s.
Proof. apply sub_junk_from. Qed.

(** [(\w)\s+([.,;!?])] at a position. *)

Lemma space_not_punct (c : ascii) : space_char c = true -> punctuation c = false.
Proof.
  char_table c.
Qed.

Lemma space_not_word (c : ascii) : space_char c = true -> word_char c = false.
Proof.
  char_table c.
Qed.

Lemma punct_not_word (c : ascii) : punctuation c = true -> word_char c = false.
Proof.
  char_table c.
Qed.

Lemma firstn_one (c : ascii) (r : str) : firstn (length (c :: r) - length r) (c :: r) = [c].
Proof.
  replace (length (c :: r) - length r) with 1 by (cbn [length]; lia). reflexivity.
Qed.

Lemma run_punct (p : option ascii) (s : str) :
  run false space_before_punct (start p s)
  = match punct_match s with
    | Some (c, q, s3) =>
        [{| prev := Some q; rest := s3; groups := [(2, [q]); (1, [c])] |}]
    | None => []
    end.
Proof.
  unfold space_before_punct, Plus, start.
  destruct s as [|c [|x s2]]; [reflexivity| |].
  - rewrite run_cat, run_group, run_cls. destruct (word_char c); reflexivity.
  - rewrite run_cat, run_group, run_cls. unfold punct_match.
    destruct (word_char c); [|reflexivity].
    cbn [map flat_map andb]. unfold capture at 1. cbn [rest prev groups].
    rewrite firstn_one, app_nil_r, !run_cat, run_cls.
    destruct (space_char x); [|reflexivity].
    cbn [flat_map]. rewrite run_star, app_nil_r. cbn [rest].
    destruct (star_cls_shape false space_char (Some x) s2 [(1, [c])] (le_n _))
      as [tl [E Htl]].
    unfold str in *. rewrite E. cbn [flat_map].
    rewrite (@flat_map_all_nil _ _ (run false (Group 2 (Cls punctuation))) tl).
    + rewrite app_nil_r, run_group.
      destruct (Py.dropwhile space_char s2) as [|d s3]; [reflexivity|].
      rewrite run_cls. destruct (punctuation d); [|reflexivity].
      cbn [map]. unfold capture. cbn [rest prev groups]. rewrite firstn_one. reflexivity.
    + eapply Forall_impl; [|exact Htl].
      intros [pv rs gs] [y [r [Hr [Hy _]]]]. cbn in Hr. subst rs.
      rewrite run_group, run_cls, (space_not_punct _ Hy). reflexivity.
Qed.

Lemma punct_match_inv (c : ascii) (s' : str) (c' q : ascii) (s3 : str) :
  punct_match (c :: s') = Some (c', q, s3) ->
  c' = c /\ word_char c = true /\ punctuation q = true
  /\ exists a, s' = a ++ q :: s3 /\ a <> [] /\ forallb space_char a = true.
Proof.
  unfold punct_match. destruct s' as [|x s2]; [discriminate|].
  destruct (word_char c) eqn:Hw; [|discriminate].
  destruct (space_char x) eqn:Hx; [|discriminate]. cbn [andb].
  destruct (dropwhile_split space_char s2) as [a [E Ha]].
  destruct (Py.dropwhile space_char s2) as [|d r]; [discriminate|].
  destruct (punctuation d) eqn:Hd; [|discriminate].
  intros H. injection H as <- <- <-.
  repeat split; try assumption.
  exists (x :: a). split; [cbn; rewrite <- E; reflexivity|].
  split; [discriminate|]. cbn. rewrite Hx. exact Ha.
Qed.

Lemma punct_match_intro (c : ascii) (a : str) (q : ascii) (s3 : str) :
  word_char c = true -> a <> [] -> forallb space_char a = true -> punctuation q = true ->
  punct_match (c :: a ++ q :: s3) = Some (c, q, s3).
Proof.
  intros Hw Hne Ha Hq. destruct a as [|x a]; [contradiction|].
  cbn in Ha. apply andb_true_iff in Ha. destruct Ha as [Hx Ha].
  cbn [punct_match app]. rewrite Hw, Hx. cbn [andb].
  rewrite dropwhile_app, Ha. cbn [Py.dropwhile].
  destruct (space_char q) eqn:Hsq.
  - apply space_not_punct in Hsq. congruence.
  - rewrite Hq. reflexivity.
Qed.

Lemma sub_punct_prev (s : str) :
  forall p p' k,
    sub_from false space_before_punct [TRef 1; TRef 2] p s k
    = sub_from false space_before_punct [TRef 1; TRef 2] p' s k.
Proof.
  induction s as [|c s IH]; intros p p' k.
  - destruct k; [|reflexivity]. cbn [sub_from]. rewrite !run_punct. reflexivity.
  - destruct k as [|k]; [|rewrite !sub_from_skip; apply IH].
    cbn [sub_from]. rewrite !run_punct.
    destruct (punct_match (c :: s)) as [[[c' q] s3]|]; [|f_equal; apply IH].
    destruct (consumed (c :: s) _) as [|n]; f_equal; cbn [filter];
      repeat match goal with
        | |- context [if ?b then _ else _] => destruct b
        | |- context [match ?n with 0 => _ | S _ => _ end] => destruct n
        end;
      f_equal; try apply IH.
Qed.

(** [re.sub(r'(\w)\s+([.,;!?])', r'\1\2', text)], case by case. *)

Lemma squeeze_nil : squeeze [] = [].
Proof. reflexivity. Qed.

Lemma squeeze_pass (c : ascii) (s : str) :
  punct_match (c :: s) = None -> squeeze (c :: s) = c :: squeeze s.
Proof.
  intros H. unfold squeeze, sub. rewrite sub_from_no_match.
  - f_equal. apply sub_punct_prev.
  - rewrite run_punct, H. reflexivity.
Qed.

Lemma squeeze_match (c : ascii) (a : str) (q : ascii) (s3 : str) :
  word_char c = true -> a <> [] -> forallb space_char a = true -> punctuation q = true ->
  squeeze (c :: a ++ q :: s3) = c :: q :: squeeze s3.
Proof.
  intros Hw Hne Ha Hq. unfold squeeze, sub.
  pose proof (run_punct None (c :: a ++ q :: s3)) as Hrun.
  rewrite (@punct_match_intro c a q s3 Hw Hne Ha Hq) in Hrun.
  rewrite (@sub_from_match false space_before_punct [TRef 1; TRef 2] None c (a ++ q :: s3)
             _ _ (length (a ++ [q])) Hrun).
  - cbn [expand flat_map groups group Nat.eqb app].
    replace (a ++ q :: s3) with ((a ++ [q]) ++ s3) by (rewrite <- app_assoc; reflexivity).
    destruct (@sub_from_skip_app false space_before_punct [TRef 1; TRef 2] (a ++ [q]) s3 (Some c))
      as [p' E].
    rewrite E. do 2 f_equal. apply sub_punct_prev.
  - unfold consumed. cbn [rest length]. rewrite !length_app. cbn [length]. lia.
Qed.

Lemma squeeze_cases (P : str -> Prop) :
  P [] ->
  (forall c s, punct_match (c :: s) = None -> P s -> P (c :: s)) ->
  (forall c a q s3,
      word_char c = true -> a <> [] -> forallb space_char a = true -> punctuation q = true ->
      P s3 -> P (c :: a ++ q :: s3)) ->
  forall s, P s.
Proof.
  intros Hnil Hpass Hmatch s.
  assert (H : forall n s, length s <= n -> P s).
  { clear s. induction n as [|n IH]; intros s Hlen.
    - destruct s; [exact Hnil|cbn in Hlen; lia].
    - destruct s as [|c s]; [exact Hnil|].
      destruct (punct_match (c :: s)) as [[[c' q] s3]|] eqn:E.
      + apply punct_match_inv in E.
        destruct E as [_ [Hw [Hq [a [-> [Hne Ha]]]]]].
        apply Hmatch; try assumption.
        apply IH. cbn in Hlen. rewrite length_app in Hlen. cbn in Hlen. lia.
      + apply Hpass; [exact E|]. apply IH. cbn in Hlen. lia. }
  apply (H (length s)). lia.
Qed.

Lemma squeeze_head (c : ascii) (s : str) : exists r, squeeze (c :: s) = c :: r.
Proof.
  destruct (punct_match (c :: s)) as [[[c' q] s3]|] eqn:E.
  - apply punct_match_inv in E. destruct E as [_ [Hw [Hq [a [-> [Hne Ha]]]]]].
    rewrite squeeze_match by assumption. eexists. reflexivity.
  - rewrite squeeze_pass by exact E. eexists. reflexivity.
Qed.

Lemma punct_match_nonword (c : ascii) (s : str) :
  word_char c = false -> punct_match (c :: s) = None.
Proof.
  intros H. unfold punct_match. destruct s; [reflexivity|]. rewrite H. reflexivity.
Qed.

Lemma squeeze_space (x : ascii) (s : str) :
  space_char x = true -> squeeze (x :: s) = x :: squeeze s.
Proof.
  intros H. apply squeeze_pass, punct_match_nonword, space_not_word, H.
Qed.

Lemma squeeze_dropwhile (s : str) :
  Py.dropwhile space_char (squeeze s) = squeeze (Py.dropwhile space_char s).
Proof.
  induction s as [|x s IH]; [reflexivity|].
  cbn [Py.dropwhile]. destruct (space_char x) eqn:Hx.
  - rewrite squeeze_space by exact Hx. cbn [Py.dropwhile]. rewrite Hx. exact IH.
  - destruct (squeeze_head x s) as [r E]. rewrite E. cbn [Py.dropwhile].
    rewrite Hx. reflexivity.
Qed.

Lemma punct_match_squeeze (c : ascii) (s : str) :
  punct_match (c :: s) = None -> punct_match (c :: squeeze s) = None.
Proof.
  destruct s as [|x s2]; [intros _; reflexivity|].
  destruct (squeeze_head x s2) as [r E]. rewrite E.
  unfold punct_match.
  destruct (word_char c && space_char x) eqn:Hcx; [|intros _; reflexivity].
  apply andb_true_iff in Hcx. destruct Hcx as [_ Hx].
  rewrite (@squeeze_space x s2 Hx) in E. injection E as <-.
  rewrite squeeze_dropwhile.
  destruct (Py.dropwhile space_char s2) as [|d s3]; [intros _; reflexivity|].
  destruct (squeeze_head d s3) as [r' E']. rewrite E'.
  destruct (punctuation d); [discriminate|intros _; reflexivity].
Qed.

Lemma squeeze_idempotent (s : str) : squeeze (squeeze s) = squeeze s.
Proof.
  induction s as [|c s Hpm IH|c a q s3 Hw Hne Ha Hq IH] using squeeze_cases.
  - reflexivity.
  - rewrite (@squeeze_pass c s Hpm).
    rewrite (@squeeze_pass c (squeeze s) (@punct_match_squeeze c s Hpm)), IH. reflexivity.
  - rewrite (@squeeze_match c a q s3 Hw Hne Ha Hq).
    rewrite squeeze_pass.
    + rewrite squeeze_pass by (apply punct_match_nonword, punct_not_word, Hq).
      rewrite IH. reflexivity.
    + unfold punct_match. rewrite Hw.
      destruct (space_char q) eqn:Hsq; [|reflexivity].
      apply space_not_punct in Hsq. congruence.
Qed.

Lemma squeeze_keeps_end (f : ascii -> bool) (d : ascii) (s : str) :
  (ends_without f (d :: s) = true -> ends_without f (squeeze (d :: s)) = true) ->
  forall pre : str,
    ends_without f (pre ++ d :: s) = true ->
    ends_without f (pre ++ squeeze (d :: s)) = true.
Proof.
  intros IH pre. destruct (squeeze_head d s) as [r E]. rewrite E in *.
  rewrite !ends_without_app by discriminate. exact IH.
Qed.

Lemma squeeze_ends_without (f : ascii -> bool) (s : str) :
  ends_without f s = true -> ends_without f (squeeze s) = true.
Proof.
  induction s as [|c s Hpm IH|c a q s3 Hw Hne Ha Hq IH] using squeeze_cases.
  - intros _. reflexivity.
  - rewrite (@squeeze_pass c s Hpm). destruct s as [|d s]; [intros H; exact H|].
    apply (@squeeze_keeps_end f d s IH [c]).
  - rewrite (@squeeze_match c a q s3 Hw Hne Ha Hq).
    destruct s3 as [|d s3].
    + rewrite squeeze_nil.
      change (c :: a ++ [q]) with ((c :: a) ++ [q]).
      change [c; q] with ([c] ++ [q]).
      rewrite !ends_without_app by discriminate. intros H; exact H.
    + replace (c :: a ++ q :: d :: s3) with ((c :: a ++ [q]) ++ d :: s3)
        by (cbn [app]; rewrite <- app_assoc; reflexivity).
      rewrite (@ends_without_app f (c :: a ++ [q]) (d :: s3)) by discriminate.
      intros H. apply (@squeeze_keeps_end f d s3 IH [c; q]).
      rewrite ends_without_app by discriminate. exact H.
Qed.

Lemma spaced_from_word (b : bool) (c : ascii) (s : str) :
  Py.isspace c = false -> spaced_from b (c :: s) = spaced_from false s.
Proof.
  intros H. cbn [spaced_from]. rewrite H. reflexivity.
Qed.

Lemma spaced_after_spaces (a : str) (q : ascii) (s3 : str) :
  forall b, forallb space_char a = true -> Py.isspace q = false ->
            spaced_from b (a ++ q :: s3) = true -> spaced_from false s3 = true.
Proof.
  induction a as [|x a IH]; intros b Ha Hq.
  - cbn [app]. rewrite spaced_from_word by exact Hq. intros H; exact H.
  - cbn in Ha. apply andb_true_iff in Ha. destruct Ha as [Hx Ha].
    cbn [app spaced_from]. unfold space_char in Hx. rewrite Hx.
    intros H. apply andb_true_iff in H. destruct H as [_ H].
    apply (IH true Ha Hq H).
Qed.

Lemma squeeze_spaced (s : str) :
  forall b, spaced_from b s = true -> spaced_from b (squeeze s) = true.
Proof.
  induction s as [|c s Hpm IH|c a q s3 Hw Hne Ha Hq IH] using squeeze_cases; intros b.
  - intros H; exact H.
  - rewrite (@squeeze_pass c s Hpm). cbn [spaced_from].
    destruct (Py.isspace c); [|apply IH].
    intros H. apply andb_true_iff in H. destruct H as [H1 H2].
    rewrite H1. apply IH, H2.
  - rewrite (@squeeze_match c a q s3 Hw Hne Ha Hq).
    assert (Hc : Py.isspace c = false).
    { destruct (Py.isspace c) eqn:Hc; [|reflexivity].
      apply space_not_word in Hc. congruence. }
    assert (Hsq : Py.isspace q = false).
    { destruct (Py.isspace q) eqn:Hsq; [|reflexivity].
      apply space_not_punct in Hsq. congruence. }
    rewrite !spaced_from_word by assumption.
    intros H. apply IH. apply (@spaced_after_spaces a q s3 false Ha Hsq H).
Qed.

(** *** Splitting on whitespace and joining with single spaces *)

Lemma join_cons (sep w : str) (ws : list str) :
  ws <> [] -> Py.join sep (w :: ws) = w ++ sep ++ Py.join sep ws.
Proof.
  destruct ws; [contradiction|reflexivity].
Qed.

Lemma split_aux_space (cur : str) (c : ascii) (s : str) :
  Py.isspace c = true ->
  Py.split_aux cur (c :: s)
  = match cur with
    | [] => Py.split_aux [] s
    | _ :: _ => rev cur :: Py.split_aux [] s
    end.
Proof.
  intros H. cbn [Py.split_aux]. rewrite H. destruct cur; reflexivity.
Qed.

Lemma split_aux_word (cur : str) (c : ascii) (s : str) :
  Py.isspace c = false -> Py.split_aux cur (c :: s) = Py.split_aux (c :: cur) s.
Proof.
  intros H. cbn [Py.split_aux]. rewrite H. reflexivity.
Qed.

Lemma at_code_32 (c : ascii) : Py.at_code 32 c = true -> c = " "%char.
Proof.
  char_table c.
Qed.

Lemma join_split_spaced (x : str) :
  (forall cur, cur <> [] ->
     exists tl, Py.join (lit " ") (Py.split_aux cur x) = rev cur ++ tl
                /\ spaced_from false tl = true)
  /\ (Py.split_aux [] x = []
      \/ spaced_from true (Py.join (lit " ") (Py.split_aux [] x)) = true).
Proof.
  induction x as [|c x [IH1 IH2]].
  - split; [|left; reflexivity].
    intros cur Hcur. exists []. destruct cur; [contradiction|].
    cbn [Py.split_aux Py.join]. rewrite app_nil_r. split; reflexivity.
  - destruct (Py.isspace c) eqn:Hc.
    + split.
      * intros cur Hcur. rewrite (@split_aux_space cur c x Hc).
        destruct cur as [|d cur]; [contradiction|].
        destruct IH2 as [E|Hsp].
        -- rewrite E. exists []. cbn [Py.join]. rewrite app_nil_r. split; reflexivity.
        -- rewrite join_cons.
           ++ eexists. split; [reflexivity|]. cbn. exact Hsp.
           ++ intros E. rewrite E in Hsp. discriminate.
      * rewrite (@split_aux_space [] c x Hc). exact IH2.
    + split.
      * intros cur Hcur. rewrite (@split_aux_word cur c x Hc).
        destruct (IH1 (c :: cur)) as [tl [E Htl]]; [discriminate|].
        exists (c :: tl). rewrite E. cbn [rev]. rewrite <- app_assoc.
        split; [reflexivity|]. rewrite spaced_from_word by exact Hc. exact Htl.
      * right. rewrite (@split_aux_word [] c x Hc).
        destruct (IH1 [c]) as [tl [E Htl]]; [discriminate|].
        rewrite E. cbn [rev app]. rewrite spaced_from_word by exact Hc. exact Htl.
Qed.

Lemma join_split_single_spaced (x : str) :
  single_spaced (Py.join (lit " ") (Py.split x)) = true.
Proof.
  unfold Py.split. destruct (join_split_spaced x) as [_ [E|H]].
  - rewrite E. reflexivity.
  - unfold single_spaced. destruct (Py.join _ _); [reflexivity|exact H].
Qed.

Lemma join_split_fixed_from (s : str) :
  (forall cur, cur <> [] -> spaced_from false s = true ->
     Py.join (lit " ") (Py.split_aux cur s) = rev cur ++ s)
  /\ (spaced_from true s = true -> Py.join (lit " ") (Py.split_aux [] s) = s).
Proof.
  induction s as [|c s [IH1 IH2]].
  - split; [|discriminate].
    intros cur Hcur _. destruct cur; [contradiction|].
    cbn [Py.split_aux Py.join]. rewrite app_nil_r. reflexivity.
  - destruct (Py.isspace c) eqn:Hc.
    + split.
      * intros cur Hcur Hsp. rewrite (@split_aux_space cur c s Hc).
        destruct cur as [|d cur]; [contradiction|].
        cbn [spaced_from] in Hsp. rewrite Hc in Hsp. cbn [negb andb] in Hsp.
        apply andb_true_iff in Hsp. destruct Hsp as [H32 Hsp].
        apply at_code_32 in H32. subst c.
        specialize (IH2 Hsp).
        rewrite join_cons.
        -- rewrite IH2. reflexivity.
        -- intros E. rewrite E in IH2. cbn in IH2. subst s. discriminate.
      * cbn [spaced_from]. rewrite Hc. discriminate.
    + split.
      * intros cur Hcur Hsp. rewrite (@split_aux_word cur c s Hc).
        rewrite spaced_from_word in Hsp by exact Hc.
        rewrite IH1; [|discriminate|exact Hsp].
        cbn [rev]. rewrite <- app_assoc. reflexivity.
      * intros Hsp. rewrite (@split_aux_word [] c s Hc).
        rewrite spaced_from_word in Hsp by exact Hc.
        rewrite IH1; [reflexivity|discriminate|exact Hsp].
Qed.

Lemma join_split_fixed (s : str) :
  single_spaced s = true -> Py.join (lit " ") (Py.split s) = s.
Proof.
  destruct s as [|c s]; [reflexivity|].
  unfold single_spaced, Py.split. apply join_split_fixed_from.
Qed.

Lemma split_aux_nil_spaces (x : str) :
  Py.split_aux [] x = [] -> forallb Py.isspace x = true.
Proof.
  induction x as [|c x IH]; [reflexivity|].
  destruct (Py.isspace c) eqn:Hc.
  - rewrite (@split_aux_space [] c x Hc). intros H. cbn. rewrite Hc. apply IH, H.
  - rewrite (@split_aux_word [] c x Hc).
    destruct (join_split_spaced x) as [H1 _].
    destruct (H1 [c]) as [tl [E _]]; [discriminate|].
    intros H. rewrite H in E. discriminate.
Qed.

Lemma forallb_impl (f g : ascii -> bool) (s : str) :
  (forall c, g c = true -> f c = true) -> forallb g s = true -> forallb f s = true.
Proof.
  intros Hfg. induction s as [|c s IH]; [reflexivity|].
  cbn. intros H. apply andb_true_iff in H. destruct H as [Hc Hs].
  rewrite (Hfg c Hc), (IH Hs). reflexivity.
Qed.

Lemma join_split_ends_without (f : ascii -> bool) :
  (forall c, Py.isspace c = true -> f c = true) ->
  forall x cur,
    ends_without f (rev cur ++ x) = true ->
    ends_without f (Py.join (lit " ") (Py.split_aux cur x)) = true.
Proof.
  intros Hf. induction x as [|c x IH]; intros cur Hend.
  - rewrite app_nil_r in Hend. destruct cur; [reflexivity|exact Hend].
  - destruct (Py.isspace c) eqn:Hc.
    + rewrite (@split_aux_space cur c x Hc).
      assert (Hx : x <> [] /\ ends_without f x = true).
      { rewrite ends_without_app in Hend by discriminate.
        destruct x as [|d x]; [|split; [discriminate|exact Hend]].
        cbn in Hend. rewrite (Hf c Hc) in Hend. discriminate. }
      destruct Hx as [Hne Hx].
      destruct cur as [|d cur]; [apply (IH []); exact Hx|].
      destruct (Py.split_aux [] x) as [|w ws] eqn:E.
      * exfalso. apply split_aux_nil_spaces in E.
        apply (forallb_impl f Py.isspace x Hf) in E.
        rewrite (@ends_without_not_all f x Hne Hx) in E. discriminate.
      * rewrite join_cons by discriminate. rewrite <- E.
        destruct (join_split_spaced x) as [_ [E'|Hsp]]; [congruence|].
        rewrite app_assoc. rewrite ends_without_app.
        -- apply (IH []). exact Hx.
        -- intros E'. rewrite E' in Hsp. discriminate.
    + rewrite (@split_aux_word cur c x Hc). apply IH.
      cbn [rev]. rewrite <- app_assoc. exact Hend.
Qed.

Lemma ends_without_weaken (f g : ascii -> bool) (s : str) :
  (forall c, g c = true -> f c = true) ->
  ends_without f s = true -> ends_without g s = true.
Proof.
  intros Hfg. induction s as [|c s IH]; [reflexivity|].
  destruct s as [|d s].
  - cbn. destruct (g c) eqn:Hg; [rewrite (Hfg c Hg); discriminate|reflexivity].
  - rewrite !(@ends_without_cons _ c (d :: s)) by discriminate. exact IH.
Qed.

Lemma space_is_junk (c : ascii) : Py.isspace c = true -> space_hyphen_underscore c = true.
Proof.
  intros H. unfold space_hyphen_underscore, space_char. rewrite H. reflexivity.
Qed.

Lemma strip_fixed (s : str) :
  single_spaced s = true -> ends_without Py.isspace s = true -> Py.strip s = s.
Proof.
  intros Hsp Hend. unfold Py.strip.
  destruct s as [|c s]; [reflexivity|].
  cbn [single_spaced spaced_from] in Hsp. cbn [Py.dropwhile].
  destruct (Py.isspace c); [discriminate|].
  apply rstrip_fixed. exact Hend.
Qed.

(** *** [clean_text], once and twice (C6) *)

Lemma tidy_shape (x : str) :
  single_spaced (tidy x) = true /\ ends_without space_hyphen_underscore (tidy x) = true.
Proof.
  unfold tidy. rewrite sub_junk.
  set (y := Py.rstrip_by space_hyphen_underscore x).
  set (n := Py.join (lit " ") (Py.split y)).
  assert (Hn : single_spaced n = true) by apply join_split_single_spaced.
  assert (Hy : ends_without space_hyphen_underscore n = true).
  { apply (@join_split_ends_without _ space_is_junk y []). apply rstrip_ends_without. }
  split.
  - destruct n as [|c n]; [reflexivity|].
    destruct (squeeze_head c n) as [r E]. rewrite E.
    change (spaced_from true (c :: r) = true). rewrite <- E.
    apply squeeze_spaced, Hn.
  - apply squeeze_ends_without, Hy.
Qed.

Lemma tidy_fixed (x : str) : Py.strip (tidy x) = tidy x /\ tidy (tidy x) = tidy x.
Proof.
  destruct (tidy_shape x) as [Hsp Hend]. split.
  - apply strip_fixed; [exact Hsp|].
    apply (@ends_without_weaken space_hyphen_underscore Py.isspace _ space_is_junk Hend).
  - unfold tidy at 1. rewrite sub_junk, (rstrip_fixed _ _ Hend), (join_split_fixed _ Hsp).
    unfold tidy. apply squeeze_idempotent.
Qed.

Lemma clean_text_eq (t : str) :
  clean_text t
  = if special_case_hit (Py.strip t) then canonical else tidy (Py.strip t).
Proof.
  unfold clean_text, special_case_hit, special_cases, tidy, squeeze.
  cbn [find existsb fst]. rewrite orb_false_r.
  destruct (search true _ (Py.strip t)); reflexivity.
Qed.

Lemma strip_clean_text (t : str) : Py.strip (clean_text t) = clean_text t.
Proof.
  rewrite clean_text_eq. destruct (special_case_hit (Py.strip t)).
  - vm_compute. reflexivity.
  - apply tidy_fixed.
Qed.

Lemma canonical_is_hit : special_case_hit canonical = true.
Proof. vm_compute. reflexivity. Qed.

(** Cleaning a cleaned text changes nothing exactly when the cleaned text
    does not match the special-case pattern or is the canonical text. *)
Lemma clean_text_twice (t : str) :
  clean_text (clean_text t) = clean_text t <->
  (special_case_hit (clean_text t) = false \/ clean_text t = canonical).
Proof.
  rewrite (clean_text_eq (clean_text t)), strip_clean_text.
  destruct (special_case_hit (clean_text t)) eqn:Hhit.
  - split.
    + intros H. right. symmetry. exact H.
    + intros [H|H]; [discriminate|symmetry; exact H].
  - split; [intros _; left; reflexivity|intros _].
    rewrite clean_text_eq in *.
    destruct (special_case_hit (Py.strip t)).
    + rewrite canonical_is_hit in Hhit. discriminate.
    + apply tidy_fixed.
Qed.

(** *** The special-case pattern, read off the matcher *)

Lemma some_match_app (l1 l2 : list mstate) :
  some_match (l1 ++ l2) = some_match l1 || some_match l2.
Proof.
  destruct l1; reflexivity.
Qed.

Lemma rest_only_word (w : str) : rest_only (run true (Word w)) (spelled_then w (fun _ => true)).
Proof.
  unfold rest_only, spelled_then.
  induction w as [|l w IH]; intros st; [reflexivity|].
  cbn [Word spells]. rewrite run_cat. destruct st as [p s gs]. cbn [rest].
  destruct s as [|x s]; [reflexivity|].
  change (run true (Lit l) {| prev := p; rest := x :: s; groups := gs |})
    with (if lit_matches true l x then [{| prev := Some x; rest := s; groups := gs |}] else []).
  destruct (lit_matches true l x); [|reflexivity].
  cbn [flat_map]. rewrite app_nil_r. apply IH.
Qed.

Lemma rest_only_cat_word (w : str) (K : regex) (k : str -> bool) :
  rest_only (run true K) k -> rest_only (run true (Cat (Word w) K)) (spelled_then w k).
Proof.
  intros HK. unfold rest_only, spelled_then.
  induction w as [|l w IH]; intros st.
  - rewrite run_cat. cbn [Word run flat_map spells]. rewrite app_nil_r. apply HK.
  - destruct st as [p s gs]. cbn [rest Word spells]. rewrite !run_cat.
    destruct s as [|x s]; [reflexivity|].
    change (run true (Lit l) {| prev := p; rest := x :: s; groups := gs |})
      with (if lit_matches true l x then [{| prev := Some x; rest := s; groups := gs |}] else []).
    destruct (lit_matches true l x); [|reflexivity].
    cbn [flat_map]. rewrite app_nil_r.
    specialize (IH {| prev := Some x; rest := s; groups := gs |}).
    rewrite run_cat in IH. exact IH.
Qed.

Lemma star_within (ic : bool) (q : ascii -> bool) (F : mstate -> list mstate)
    (k : str -> bool) :
  rest_only F k ->
  forall fuel st, length (rest st) <= fuel ->
    some_match (flat_map F (star_loop (run ic (Cls q)) fuel st)) = within_run q k (rest st).
Proof.
  intros HF. induction fuel as [|fuel IH]; intros [p s gs] Hlen; cbn [rest] in *.
  - destruct s; [|cbn in Hlen; lia].
    cbn [star_loop flat_map within_run]. rewrite app_nil_r, orb_false_r. apply HF.
  - rewrite star_loop_S, flat_map_app, some_match_app. cbn [flat_map rest].
    rewrite app_nil_r, HF. cbn [rest].
    destruct s as [|x s].
    + cbn. rewrite orb_false_r. reflexivity.
    + rewrite run_cls. cbn [within_run]. rewrite orb_comm. f_equal.
      destruct (q x); [|reflexivity].
      cbn [flat_map rest]. rewrite app_nil_r.
      replace (length s <? length (x :: s)) with true
        by (symmetry; apply Nat.ltb_lt; cbn; lia).
      apply (IH {| prev := Some x; rest := s; groups := gs |}). cbn in *. lia.
Qed.

Lemma rest_only_cat_star (ic : bool) (q : ascii -> bool) (K : regex) (k : str -> bool) :
  rest_only (run ic K) k -> rest_only (run ic (Cat (Star (Cls q)) K)) (within_run q k).
Proof.
  intros HK st. rewrite run_cat, run_star. apply (star_within ic q HK). lia.
Qed.

Lemma search_anywhere (ic : bool) (r : regex) (k : str -> bool) :
  rest_only (run ic r) k ->
  forall s p, search_from ic r p s = anywhere k s.
Proof.
  intros Hr. induction s as [|c s IH]; intros p.
  - pose proof (Hr (start p [])) as H0. cbn [rest start] in H0.
    cbn [search_from anywhere]. rewrite <- H0.
    destruct (run ic r (start p [])); reflexivity.
  - pose proof (Hr (start p (c :: s))) as H0. cbn [rest start] in H0.
    cbn [search_from anywhere]. rewrite <- H0, <- (IH (Some c)).
    destruct (run ic r (start p (c :: s))); reflexivity.
Qed.

Lemma within_run_ext (q : ascii -> bool) (k k' : str -> bool) (s : str) :
  (forall s', k s' = k' s') -> within_run q k s = within_run q k' s.
Proof.
  intros H. induction s as [|x s IH]; cbn; rewrite H; [reflexivity|].
  rewrite IH. reflexivity.
Qed.

Lemma special_case_hit_spec (s : str) :
  special_case_hit s
  = anywhere (spelled_then (lit "hope") (then_words [lit "see"; lit "there"])) s.
Proof.
  unfold special_case_hit, special_cases. cbn [existsb fst]. rewrite orb_false_r.
  unfold search. apply search_anywhere.
  apply rest_only_cat_word.
  change (then_words [lit "see"; lit "there"])
    with (within_run any_char (spelled_then (lit "see") (then_words [lit "there"]))).
  apply rest_only_cat_star, rest_only_cat_word.
  change (then_words [lit "there"])
    with (within_run any_char (spelled_then (lit "there") (then_words []))).
  apply rest_only_cat_star, rest_only_word.
Qed.

(** *** Words in order, with and without line feeds between them *)

Lemma anywhere_iff (k : str -> bool) (s : str) :
  anywhere k s = true <-> exists a s', s = a ++ s' /\ k s' = true.
Proof.
  induction s as [|x s IH]; cbn [anywhere].
  - rewrite orb_false_r. split.
    + intros H. exists [], []. split; [reflexivity|exact H].
    + intros [a [s' [E H]]]. destruct a; [|discriminate]. cbn in E. subst s'. exact H.
  - rewrite orb_true_iff, IH. split.
    + intros [H|[a [s' [E H]]]].
      * exists [], (x :: s). split; [reflexivity|exact H].
      * exists (x :: a), s'. split; [cbn; rewrite E; reflexivity|exact H].
    + intros [a [s' [E H]]]. destruct a as [|y a]; cbn in E.
      * left. subst s'. exact H.
      * injection E as _ E. right. exists a, s'. split; assumption.
Qed.

Lemma within_run_anywhere (q : ascii -> bool) (k k' : str -> bool) (s : str) :
  (forall s', k s' = true -> k' s' = true) ->
  within_run q k s = true -> anywhere k' s = true.
Proof.
  intros Hk. induction s as [|x s IH]; cbn [within_run anywhere].
  - rewrite !orb_false_r. apply Hk.
  - rewrite !orb_true_iff. intros [H|H]; [left; apply Hk, H|right].
    apply andb_true_iff in H. apply IH, H.
Qed.

Lemma anywhere_within_run (q : ascii -> bool) (k k' : str -> bool) (s : str) :
  forallb q s = true ->
  (forall a s', s = a ++ s' -> k s' = true -> k' s' = true) ->
  anywhere k s = true -> within_run q k' s = true.
Proof.
  induction s as [|x s IH]; cbn [within_run anywhere forallb]; intros Hq Hk.
  - rewrite !orb_false_r. apply (Hk [] []). reflexivity.
  - apply andb_true_iff in Hq. destruct Hq as [Hx Hq].
    rewrite !orb_true_iff. intros [H|H].
    + left. apply (Hk [] (x :: s)); [reflexivity|exact H].
    + right. rewrite Hx. apply IH; [exact Hq| |exact H].
      intros a s' E. apply (Hk (x :: a) s'). cbn. rewrite E. reflexivity.
Qed.

Lemma spells_suffix (w s r : str) : spells w s = Some r -> exists h, s = h ++ r.
Proof.
  revert s. induction w as [|l w IH]; intros s; cbn [spells].
  - intros H. injection H as <-. exists []. reflexivity.
  - destruct s as [|x s]; [discriminate|].
    destruct (lit_matches true l x); [|discriminate].
    intros H. destruct (IH s H) as [h E]. exists (x :: h). cbn. rewrite E. reflexivity.
Qed.

Lemma forallb_suffix (q : ascii -> bool) (a s : str) :
  forallb q (a ++ s) = true -> forallb q s = true.
Proof.
  rewrite forallb_app. intros H. apply andb_true_iff in H. apply H.
Qed.

Lemma then_words_in_order (ws : list str) :
  forall s, then_words ws s = true -> in_order ws s = true.
Proof.
  induction ws as [|w ws IH]; intros s; [reflexivity|].
  cbn [then_words in_order]. apply within_run_anywhere.
  intros s'. unfold spelled_then. destruct (spells w s'); [apply IH|discriminate].
Qed.

Lemma in_order_then_words (ws : list str) :
  forall s, no_newline s = true -> in_order ws s = true -> then_words ws s = true.
Proof.
  induction ws as [|w ws IH]; intros s Hnl; [reflexivity|].
  cbn [then_words in_order]. apply anywhere_within_run; [exact Hnl|].
  intros a s' E. unfold spelled_then. destruct (spells w s') as [r|] eqn:Hw; [|discriminate].
  apply IH. destruct (spells_suffix _ _ Hw) as [h Eh].
  subst s. rewrite Eh in Hnl. unfold no_newline in *.
  apply forallb_suffix in Hnl. apply forallb_suffix in Hnl. exact Hnl.
Qed.

Lemma special_case_hit_in_order (s : str) :
  special_case_hit s = true -> in_order special_words s = true.
Proof.
  rewrite special_case_hit_spec. unfold special_words. cbn [in_order].
  intros H. apply anywhere_iff in H. destruct H as [a [s' [E H]]].
  apply anywhere_iff. exists a, s'. split; [exact E|].
  unfold spelled_then in *. destruct (spells (lit "hope") s'); [|discriminate].
  apply (then_words_in_order [lit "see"; lit "there"]), H.
Qed.

Lemma in_order_special_case_hit (s : str) :
  no_newline s = true -> in_order special_words s = true -> special_case_hit s = true.
Proof.
  intros Hnl. rewrite special_case_hit_spec. unfold special_words. cbn [in_order].
  intros H. apply anywhere_iff in H. destruct H as [a [s' [E H]]].
  apply anywhere_iff. exists a, s'. split; [exact E|].
  unfold spelled_then in *. destruct (spells (lit "hope") s') as [r|] eqn:Hw; [|discriminate].
  apply (in_order_then_words [lit "see"; lit "there"]); [|exact H].
  destruct (spells_suffix _ _ Hw) as [h Eh].
  subst s. rewrite Eh in Hnl. unfold no_newline in *.
  apply forallb_suffix in Hnl. apply forallb_suffix in Hnl. exact Hnl.
Qed.

(** *** Words in order survive the thinning of a text *)

Lemma eqb_char_eq (a b : ascii) : Py.eqb_char a b = true -> a = b.
Proof.
  unfold Py.eqb_char, Py.code. intros H. apply N.eqb_eq in H.
  rewrite <- (ascii_N_embedding a), <- (ascii_N_embedding b), H. reflexivity.
Qed.

Lemma soft_lower (x : ascii) : soft x = true -> Py.lower1 x = x.
Proof.
  char_table x.
Qed.

Lemma matched_not_soft (l x : ascii) :
  negb (soft l) && Py.eqb_char (Py.lower1 l) l = true ->
  lit_matches true l x = true -> soft x = false.
Proof.
  intros Hl Hm. apply andb_true_iff in Hl. destruct Hl as [Hs Hlow].
  apply negb_true_iff in Hs. apply eqb_char_eq in Hlow.
  unfold lit_matches in Hm. apply eqb_char_eq in Hm. rewrite Hlow in Hm.
  destruct (soft x) eqn:Hx; [|reflexivity].
  rewrite (soft_lower _ Hx) in Hm. congruence.
Qed.

Lemma space_is_soft (x : ascii) : Py.isspace x = true -> soft x = true.
Proof.
  intros H. unfold soft. rewrite H. reflexivity.
Qed.

Lemma thinned_suffix (a c' : str) :
  forall b s, thinned b (a ++ c') s ->
              exists b' a2 s', s = a2 ++ s' /\ thinned b' c' s'.
Proof.
  intros b s H. remember (a ++ c') as c eqn:E. revert a E.
  induction H as [b s|b x c s H IH|b x c s Hx H IH|b x c s Hx Hb H IH]; intros a E.
  - destruct a; [|discriminate]. cbn in E. subst c'.
    exists b, [], s. split; [reflexivity|constructor].
  - destruct a as [|y a]; cbn in E.
    + subst c'. exists b, [], (x :: s). split; [reflexivity|].
      apply thin_keep. exact H.
    + injection E as <- E. destruct (IH a E) as [b' [a2 [s' [Es Hs]]]].
      exists b', (x :: a2), s'. split; [cbn; rewrite Es; reflexivity|exact Hs].
  - destruct a as [|y a]; cbn in E.
    + subst c'. exists b, [], (x :: s). split; [reflexivity|].
      apply thin_space; assumption.
    + injection E as _ E. destruct (IH a E) as [b' [a2 [s' [Es Hs]]]].
      exists b', (x :: a2), s'. split; [cbn; rewrite Es; reflexivity|exact Hs].
  - destruct (IH a E) as [b' [a2 [s' [Es Hs]]]].
    exists b', (x :: a2), s'. split; [cbn; rewrite Es; reflexivity|exact Hs].
Qed.

Lemma spells_thinned_strict (w : str) :
  plain w = true ->
  forall c s rc,
    thinned false c s -> spells w c = Some rc ->
    exists rs, spells w s = Some rs /\ thinned false rc rs.
Proof.
  induction w as [|l w IH]; intros Hw c s rc H Hsp.
  - cbn in Hsp. injection Hsp as <-. exists s. split; [reflexivity|exact H].
  - cbn [plain forallb] in Hw. apply andb_true_iff in Hw. destruct Hw as [Hl Hw].
    cbn [spells] in Hsp. destruct c as [|x c]; [discriminate|].
    destruct (lit_matches true l x) eqn:Hm; [|discriminate].
    pose proof (matched_not_soft _ _ Hl Hm) as Hx.
    inversion H as [|b y c0 s0 H0|b y c0 s0 Hy H0|b y c0 s0 Hy Hb H0]; subst.
    + rewrite Hx in H0.
      destruct (IH Hw c s0 rc H0 Hsp) as [rs [Hrs Hth]].
      exists rs. split; [cbn [spells]; rewrite Hm; exact Hrs|exact Hth].
    + vm_compute in Hx. discriminate Hx.
    + cbn in Hb. rewrite Hx in Hb. discriminate Hb.
Qed.

Lemma spells_thinned (w : str) :
  w <> [] -> plain w = true ->
  forall b c s, thinned b c s ->
  forall rc, spells w c = Some rc ->
    exists s1 s2 rs, s = s1 ++ s2 /\ spells w s2 = Some rs /\ thinned false rc rs.
Proof.
  intros Hne Hw b c s H.
  induction H as [b s|b x c s H _|b x c s Hx H _|b x c s Hx Hb H IH]; intros rc Hsp.
  - destruct w; [contradiction|discriminate].
  - destruct w as [|l w]; [contradiction|].
    pose proof Hw as Hw'. cbn [plain forallb] in Hw'.
    apply andb_true_iff in Hw'. destruct Hw' as [Hl Hw'].
    cbn [spells] in Hsp. destruct (lit_matches true l x) eqn:Hm; [|discriminate].
    rewrite (matched_not_soft _ _ Hl Hm) in H.
    destruct (@spells_thinned_strict w Hw' c s rc H Hsp) as [rs [Hrs Hth]].
    exists [], (x :: s), rs. split; [reflexivity|].
    split; [cbn [spells]; rewrite Hm; exact Hrs|exact Hth].
  - destruct w as [|l w]; [contradiction|].
    cbn [plain forallb] in Hw. apply andb_true_iff in Hw. destruct Hw as [Hl _].
    cbn [spells] in Hsp. destruct (lit_matches true l " "%char) eqn:Hm; [|discriminate].
    pose proof (matched_not_soft _ _ Hl Hm) as Hs.
    vm_compute in Hs. discriminate Hs.
  - destruct (IH rc Hsp) as [s1 [s2 [rs [E [Hrs Hth]]]]].
    exists (x :: s1), s2, rs. split; [cbn; rewrite E; reflexivity|]. split; assumption.
Qed.

Lemma in_order_thinned (ws : list str) :
  Forall (fun w => w <> [] /\ plain w = true) ws ->
  forall b c s, thinned b c s -> in_order ws c = true -> in_order ws s = true.
Proof.
  induction 1 as [|w ws [Hne Hw] _ IH]; intros b c s H; [reflexivity|].
  cbn [in_order]. rewrite !anywhere_iff.
  intros [a [c' [E Hk]]]. subst c.
  destruct (thinned_suffix _ _ H) as [b' [a2 [s' [Es Hs']]]].
  unfold spelled_then in Hk. destruct (spells w c') as [rc|] eqn:Hsp; [|discriminate].
  destruct (@spells_thinned w Hne Hw b' c' s' Hs' rc Hsp) as [s1 [s2 [rs [E2 [Hrs Hth]]]]].
  exists (a2 ++ s1), s2. split; [rewrite Es, E2, app_assoc; reflexivity|].
  unfold spelled_then. rewrite Hrs. apply (IH false rc rs Hth Hk).
Qed.

(** *** Each step of the normaliser thins the text *)

Lemma thinned_head (p j : str) : forall b, thinned b p (p ++ j).
Proof.
  induction p as [|x p IH]; intros b; cbn [app]; [constructor|].
  apply thin_keep, IH.
Qed.

Lemma rstrip_head (q : ascii -> bool) (s : str) : exists j, s = Py.rstrip_by q s ++ j.
Proof.
  unfold Py.rstrip_by. destruct (dropwhile_split q (rev s)) as [a [E _]].
  exists (rev a). rewrite <- rev_app_distr, <- E, rev_involutive. reflexivity.
Qed.

Lemma rstrip_thinned (q : ascii -> bool) (s : str) (b : bool) :
  thinned b (Py.rstrip_by q s) s.
Proof.
  destruct (rstrip_head q s) as [j E]. rewrite E at 2. apply thinned_head.
Qed.

Lemma punct_is_soft (x : ascii) : punctuation x = true -> soft x = true.
Proof.
  intros H. unfold soft. rewrite H. apply orb_true_r.
Qed.

Lemma thinned_skip_run (a : str) :
  forallb space_char a = true ->
  forall b c s, head_soft c = true -> thinned b c s -> thinned b c (a ++ s).
Proof.
  induction a as [|x a IH]; intros Ha b c s Hc H; [exact H|].
  cbn in Ha. apply andb_true_iff in Ha. destruct Ha as [Hx Ha].
  cbn [app]. apply thin_skip; [exact Hx|rewrite Hc; apply orb_true_r|].
  apply IH; assumption.
Qed.

Lemma squeeze_thinned (s : str) : forall b, thinned b (squeeze s) s.
Proof.
  induction s as [|c s Hpm IH|c a q s3 Hw Hne Ha Hq IH] using squeeze_cases; intros b.
  - constructor.
  - rewrite (@squeeze_pass c s Hpm). apply thin_keep, IH.
  - rewrite (@squeeze_match c a q s3 Hw Hne Ha Hq).
    apply thin_keep. apply thinned_skip_run; [exact Ha|apply punct_is_soft, Hq|].
    apply thin_keep, IH.
Qed.

Lemma join_split_thinned (y : str) :
  (forall cur, cur <> [] ->
     exists tl, Py.join (lit " ") (Py.split_aux cur y) = rev cur ++ tl
                /\ forall b, thinned b tl y)
  /\ thinned true (Py.join (lit " ") (Py.split_aux [] y)) y.
Proof.
  induction y as [|c y [IH1 IH2]].
  - split; [|constructor].
    intros cur Hcur. exists []. destruct cur; [contradiction|].
    cbn [Py.split_aux Py.join]. rewrite app_nil_r. split; [reflexivity|constructor].
  - destruct (Py.isspace c) eqn:Hc.
    + split.
      * intros cur Hcur. rewrite (@split_aux_space cur c y Hc).
        destruct cur as [|d cur]; [contradiction|].
        destruct (Py.split_aux [] y) as [|w ws] eqn:E.
        -- exists []. cbn [Py.join]. rewrite app_nil_r. split; [reflexivity|constructor].
        -- rewrite join_cons by discriminate.
           eexists. split; [reflexivity|].
           intros b. apply thin_space; [exact Hc|exact IH2].
      * rewrite (@split_aux_space [] c y Hc).
        apply thin_skip; [exact Hc|reflexivity|exact IH2].
    + split.
      * intros cur Hcur. rewrite (@split_aux_word cur c y Hc).
        destruct (IH1 (c :: cur)) as [tl [E Htl]]; [discriminate|].
        exists (c :: tl). rewrite E. cbn [rev]. rewrite <- app_assoc.
        split; [reflexivity|]. intros b. apply thin_keep, Htl.
      * rewrite (@split_aux_word [] c y Hc).
        destruct (IH1 [c]) as [tl [E Htl]]; [discriminate|].
        rewrite E. cbn [rev app]. apply thin_keep, Htl.
Qed.

Lemma special_words_plain :
  Forall (fun w => w <> [] /\ plain w = true) special_words.
Proof.
  repeat constructor; discriminate.
Qed.

Lemma tidy_keeps_words_apart (s : str) :
  in_order special_words (tidy s) = true -> in_order special_words s = true.
Proof.
  unfold tidy. rewrite sub_junk. intros H.
  apply (in_order_thinned special_words_plain (squeeze_thinned _ true)) in H.
  apply (in_order_thinned special_words_plain
           (proj2 (join_split_thinned (Py.rstrip_by space_hyphen_underscore s)))) in H.
  apply (in_order_thinned special_words_plain
           (rstrip_thinned space_hyphen_underscore s true) H).
Qed.

(** *** [clean_text] on a text without line feed *)

Lemma strip_no_newline (t : str) :
  no_newline t = true -> no_newline (Py.strip t) = true.
Proof.
  unfold no_newline, Py.strip. intros H.
  destruct (dropwhile_split Py.isspace t) as [a [E _]].
  rewrite E in H. apply forallb_suffix in H.
  destruct (rstrip_head Py.isspace (Py.dropwhile Py.isspace t)) as [j Ej].
  rewrite Ej, forallb_app in H. apply andb_true_iff in H. apply H.
Qed.

Lemma tidy_makes_no_hit (s : str) :
  no_newline s = true -> special_case_hit s = false -> special_case_hit (tidy s) = false.
Proof.
  intros Hnl Hs. destruct (special_case_hit (tidy s)) eqn:Ht; [|reflexivity].
  apply special_case_hit_in_order, tidy_keeps_words_apart in Ht.
  rewrite (in_order_special_case_hit s Hnl Ht) in Hs. discriminate.
Qed.

(** C6, as amended: cleaning a cleaned text changes nothing exactly when the
    cleaned text does not match the special-case pattern or is the canonical
    text itself; this is so for every text without a line feed. *)
Theorem clean_text_idempotence :
  (forall t : str,
      clean_text (clean_text t) = clean_text t <->
      (special_case_hit (clean_text t) = false \/ clean_text t = canonical))
  /\ (forall t : str,
        no_newline t = true -> clean_text (clean_text t) = clean_text t).
Proof.
  split; [exact clean_text_twice|].
  intros t Hnl. apply clean_text_twice. rewrite clean_text_eq.
  destruct (special_case_hit (Py.strip t)) eqn:Hs; [right; reflexivity|left].
  apply tidy_makes_no_hit; [apply strip_no_newline, Hnl|exact Hs].
Qed.

Lemma clean_text_idempotence_witness :
  no_newline (lit "  The   end .  ") = true
  /\ clean_text (clean_text (lit "  The   end .  ")) = clean_text (lit "  The   end .  ").
Proof.
  split; [reflexivity|].
  apply (proj2 clean_text_idempotence). reflexivity.
Defined.

(** C6, where idempotence fails: the pattern does not match across the line
    feed, cleaning turns the line feed into a space, and the second cleaning
    then answers with the canonical text. *)
Lemma clean_text_not_idempotent :
  clean_text hope_on_two_lines = lit "hope see there"
  /\ clean_text (clean_text hope_on_two_lines) = lit "HOPE TO SEE YOU THERE!".
Proof. vm_compute. split; reflexivity. Qed.

(** *** Comparisons of binary64 values *)

Local Open Scope float_scope.

Ltac sf_order :=
  unfold SFltb, SFleb, SFcompare;
  repeat match goal with
    | x : spec_float |- _ => destruct x as [[]|[]| |[] ? ?]
    end;
  try discriminate; try reflexivity;
  change (Pos.compare_cont Eq) with Pos.compare;
  repeat match goal with
    | |- context [Z.compare ?u ?v] => destruct (Z.compare_spec u v)
    | |- context [Pos.compare ?u ?v] => destruct (Pos.compare_spec u v)
    end;
  cbn; try discriminate; try reflexivity; intros; exfalso; lia.

Lemma SF_le_trans (a b c : spec_float) :
  SFleb a b = true -> SFleb b c = true -> SFleb a c = true.
Proof. sf_order. Qed.

Lemma SF_le_lt_not_le (x a b : spec_float) :
  SFleb x a = true -> SFltb a b = true -> SFleb b x = false.
Proof. sf_order. Qed.

Lemma SF_lt_not_lt_trans (a b y : spec_float) :
  SFltb a b = true -> SFltb a y = false -> SFltb b y = false.
Proof. sf_order. Qed.

Lemma float_le_trans (a b c : float) :
  (a <=? b) = true -> (b <=? c) = true -> (a <=? c) = true.
Proof. rewrite !leb_spec. apply SF_le_trans. Qed.

Lemma float_le_lt_not_le (x a b : float) :
  (x <=? a) = true -> (a <? b) = true -> (b <=? x) = false.
Proof. rewrite !leb_spec, ltb_spec. apply SF_le_lt_not_le. Qed.

Lemma float_lt_not_lt_trans (a b y : float) :
  (a <? b) = true -> (a <? y) = false -> (b <? y) = false.
Proof. rewrite !ltb_spec. apply SF_lt_not_lt_trans. Qed.

Lemma float_le_infinity (a x : float) : (a <=? x) = true -> (x <=? infinity) = true.
Proof.
  rewrite !leb_spec. change (Prim2SF infinity) with (S754_infinity false).
  generalize (Prim2SF a) (Prim2SF x). intros sa sx. sf_order.
Qed.

(** *** Words and characters *)

Lemma split_aux_length (s : str) :
  forall cur,
    2 * length (Py.split_aux cur s)
    <= length s + match cur with [] => 1 | _ :: _ => 2 end.
Proof.
  induction s as [|c s IH]; intros cur.
  - destruct cur; cbn; lia.
  - cbn [Py.split_aux]. destruct (Py.isspace c).
    + destruct cur; [specialize (IH []); cbn in *; lia|].
      specialize (IH []). cbn [length] in *. lia.
    + specialize (IH (c :: cur)). cbn [length] in *. destruct cur; lia.
Qed.

Lemma split_length (s : str) : 2 * length (Py.split s) <= length s + 1.
Proof. apply (split_aux_length s []). Qed.

(** *** The decision table of [determine_heading_level] *)

Local Open Scope float_scope.

Lemma text_case_eqb_eq (a b : text_case) : text_case_eqb a b = true <-> a = b.
Proof. destruct a, b; cbn; split; congruence. Qed.

(** Two comparisons of one size with constants that cannot both hold. *)
Ltac float_contra :=
  exfalso;
  match goal with
  | H1 : (?a <=? ?x) = true, H2 : (?b <=? ?x) = false |- _ =>
      rewrite (@float_le_trans b a x eq_refl H1) in H2; discriminate H2
  | H1 : (?x <=? ?a) = true, H2 : (?x <=? ?b) = false |- _ =>
      rewrite (@float_le_trans x a b H1 eq_refl) in H2; discriminate H2
  | H1 : (?x <=? ?a) = true, H2 : (?b <=? ?x) = true |- _ =>
      rewrite (@float_le_lt_not_le x a b H1 eq_refl) in H2; discriminate H2
  | H1 : (?a <=? ?x) = true, H2 : (?x <=? infinity) = false |- _ =>
      rewrite (@float_le_infinity a x H1) in H2; discriminate H2
  end.

Ltac bool_split :=
  repeat match goal with
    | H : _ && _ = true |- _ => apply andb_true_iff in H; destruct H
    | H : _ && _ = false |- _ => apply andb_false_iff in H; destruct H
    | H : (_ <=? _)%nat = true |- _ => apply Nat.leb_le in H
    | H : (_ <=? _)%nat = false |- _ => apply Nat.leb_gt in H
    | H : text_case_eqb _ _ = true |- _ => apply text_case_eqb_eq in H
    | H : _ /\ _ |- _ => destruct H
    end.

Lemma determine_heading_level_unfold (text : str) (props : font_props) :
  is_ignored_text text = false ->
  determine_heading_level text props
  = if (17.5 <=? size props) && (size props <=? infinity) && is_bold props
       && (5 <=? length text)%nat
    then Some H1
    else if (18 <=? size props) && (size props <=? 23.9) && is_bold props
            && text_case_eqb Title (compute_text_case text) && (4 <=? length text)%nat
    then Some H2
    else if (14 <=? size props) && (size props <=? 17.9) && (3 <=? length text)%nat
    then Some H3
    else if (14 <=? size props) && (size props <=? 16.5) && is_bold props
            && ((2 <=? length (Py.split text))%nat && (length (Py.split text) <=? 5)%nat)
    then Some H2
    else if (20 <=? size props) && (10 <=? length text)%nat
    then Some H1
    else if (13.5 <=? size props) && (size props <=? 16.5)
            && (length (Py.split text) <=? 6)%nat
    then Some H3
    else None.
Proof.
  intros Hign. unfold determine_heading_level. rewrite Hign.
  unfold heading_profiles, find, profile_matches.
  cbn [snd fst min_size max_size weight_req case_req min_length text_case_eqb orb].
  rewrite !andb_true_r.
  repeat match goal with |- context [if ?c then _ else _] => destruct c end; reflexivity.
Qed.

Ltac heading_cases Hign :=
  rewrite (determine_heading_level_unfold _ _ Hign);
  repeat match goal with
    | |- context [if ?c then _ else _] => let E := fresh "E" in destruct c eqn:E
    end.

(** X1: for a text that is not ignored, the answer is H1 exactly when the
    font is bold at size 17.5 or more and the text has five characters or
    more, or the size is 20 or more and the text has ten characters or more. *)
Theorem h1_exactly (text : str) (props : font_props) :
  is_ignored_text text = false ->
  (determine_heading_level text props = Some H1 <->
   (is_bold props = true /\ (17.5 <=? size props) = true /\ 5 <= length text)
   \/ ((20 <=? size props) = true /\ 10 <= length text)).
Proof.
  intros Hign. pose proof (split_length text) as Hwords.
  heading_cases Hign; (split; [intros Hres|intros [Hc|Hc]]);
    try discriminate Hres; bool_split;
    try (left; repeat split; assumption);
    try (right; repeat split; assumption);
    try reflexivity; try lia; try congruence; try float_contra.
Qed.

(** X2: for a text that is not ignored, the answer is H2 exactly when the
    font is bold, the size lies between 18 and 23.9, the text is in title
    case and has exactly four characters: a longer text in such a font is an
    H1, and the fallback rule for H2 never applies, since whatever it admits
    has been taken as H1 or H3 before. *)
Theorem h2_exactly (text : str) (props : font_props) :
  is_ignored_text text = false ->
  (determine_heading_level text props = Some H2 <->
   is_bold props = true /\ (18 <=? size props) = true /\ (size props <=? 23.9) = true
   /\ compute_text_case text = Title /\ (length text = 4)%nat).
Proof.
  intros Hign. pose proof (split_length text) as Hwords.
  heading_cases Hign; (split; [intros Hres|intros Hc]);
    try discriminate Hres; bool_split;
    try (repeat split; (assumption || (symmetry; assumption) || lia));
    try reflexivity; try lia; try congruence; try float_contra;
    try match goal with
      | H : compute_text_case _ = Title, H' : text_case_eqb Title _ = false |- _ =>
          rewrite H in H'; discriminate H'
      end.
Qed.

(** X3: for a text that is not ignored, the answer is H3 exactly when the
    size lies between 14 and 17.9, the text has three characters or more and
    the H1 profile does not apply, or the size lies between 13.5 and 16.5
    and the text has six words or fewer. *)
Theorem h3_exactly (text : str) (props : font_props) :
  is_ignored_text text = false ->
  (determine_heading_level text props = Some H3 <->
   ((14 <=? size props) = true /\ (size props <=? 17.9) = true /\ 3 <= length text
    /\ ~ (is_bold props = true /\ (17.5 <=? size props) = true /\ 5 <= length text))
   \/ ((13.5 <=? size props) = true /\ (size props <=? 16.5) = true
       /\ length (Py.split text) <= 6)).
Proof.
  intros Hign. pose proof (split_length text) as Hwords.
  heading_cases Hign; (split; [intros Hres|intros [Hc|Hc]]);
    try discriminate Hres; bool_split;
    try reflexivity; try lia; try congruence; try float_contra;
    try (right; repeat split; assumption);
    try (left; repeat split; try assumption; intros [Hb [Hs Hl]];
         first [congruence | lia | float_contra]);
    try match goal with
      | Hn : ~ _ |- _ => exfalso; apply Hn; repeat split; assumption
      end.
Qed.

(** X4: a text that is not ignored, at a size between 14 and 16.5, is an H3
    whatever its weight, length and case. *)
Theorem sizes_14_to_16_5_are_h3 (text : str) (props : font_props) :
  is_ignored_text text = false ->
  (14 <=? size props) = true -> (size props <=? 16.5) = true ->
  determine_heading_level text props = Some H3.
Proof.
  intros Hign Hlo Hhi. pose proof (split_length text) as Hwords.
  heading_cases Hign; bool_split;
    try reflexivity; try lia; try congruence; try float_contra.
Qed.

Lemma h1_exactly_witness :
  is_ignored_text (lit "Annual general meeting") = false
  /\ (determine_heading_level (lit "Annual general meeting")
        {| size := 22; is_bold := false; color := 0 |} = Some H1 <->
      (is_bold {| size := 22; is_bold := false; color := 0 |} = true
       /\ (17.5 <=? 22) = true /\ 5 <= length (lit "Annual general meeting"))
      \/ ((20 <=? 22) = true /\ 10 <= length (lit "Annual general meeting"))).
Proof.
  split; [vm_compute; reflexivity|].
  apply (@h1_exactly (lit "Annual general meeting")
           {| size := 22; is_bold := false; color := 0 |}).
  vm_compute. reflexivity.
Defined.

Lemma h2_exactly_witness :
  is_ignored_text (lit "Note") = false
  /\ (determine_heading_level (lit "Note") {| size := 19; is_bold := true; color := 0 |}
      = Some H2 <->
      is_bold {| size := 19; is_bold := true; color := 0 |} = true
      /\ (18 <=? 19) = true /\ (19 <=? 23.9) = true
      /\ compute_text_case (lit "Note") = Title /\ (length (lit "Note") = 4)%nat).
Proof.
  split; [vm_compute; reflexivity|].
  apply (@h2_exactly (lit "Note") {| size := 19; is_bold := true; color := 0 |}).
  vm_compute. reflexivity.
Defined.

Lemma h3_exactly_witness :
  is_ignored_text (lit "ab") = false
  /\ (determine_heading_level (lit "ab") {| size := 15; is_bold := false; color := 0 |}
      = Some H3 <->
      ((14 <=? 15) = true /\ (15 <=? 17.9) = true /\ 3 <= length (lit "ab")
       /\ ~ (is_bold {| size := 15; is_bold := false; color := 0 |} = true
             /\ (17.5 <=? 15) = true /\ 5 <= length (lit "ab")))
      \/ ((13.5 <=? 15) = true /\ (15 <=? 16.5) = true
          /\ length (Py.split (lit "ab")) <= 6)).
Proof.
  split; [vm_compute; reflexivity|].
  apply (@h3_exactly (lit "ab") {| size := 15; is_bold := false; color := 0 |}).
  vm_compute. reflexivity.
Defined.

Lemma sizes_14_to_16_5_are_h3_witness :
  is_ignored_text (lit "ab") = false /\ (14 <=? 15) = true /\ (15 <=? 16.5) = true
  /\ determine_heading_level (lit "ab") {| size := 15; is_bold := false; color := 0 |}
     = Some H3.
Proof.
  split; [vm_compute; reflexivity|]. split; [reflexivity|]. split; [reflexivity|].
  apply sizes_14_to_16_5_are_h3; [vm_compute; reflexivity|reflexivity|reflexivity].
Defined.

(** *** The font profile of a line *)

Lemma SF_lt_irrefl (x : spec_float) : SFltb x x = false.
Proof. sf_order. Qed.

Lemma float_lt_irrefl (x : float) : (x <? x) = false.
Proof. rewrite ltb_spec. apply SF_lt_irrefl. Qed.

Section MaxBy.

Variable A : Type.
Variable key : A -> float.

Lemma max_from_in (xs : list A) : forall best, In (Py.max_from key best xs) (best :: xs).
Proof.
  induction xs as [|x xs IH]; intros best; [left; reflexivity|].
  cbn [Py.max_from]. destruct (IH (if key best <? key x then x else best)) as [E|Hin].
  - destruct (key best <? key x); [right; left|left]; exact E.
  - right. right. exact Hin.
Qed.

Lemma max_from_top (xs : list A) :
  forall best seen,
    (forall y, In y seen -> (key best <? key y) = false) ->
    forall y, In y (seen ++ xs) -> (key (Py.max_from key best xs) <? key y) = false.
Proof.
  induction xs as [|x xs IH]; intros best seen Hseen y Hy.
  - rewrite app_nil_r in Hy. apply Hseen, Hy.
  - cbn [Py.max_from].
    apply (IH _ (seen ++ [x])); [|rewrite <- app_assoc; exact Hy].
    intros z Hz. apply in_app_iff in Hz.
    destruct (key best <? key x) eqn:Hlt.
    + destruct Hz as [Hz|[<-|[]]]; [|apply float_lt_irrefl].
      apply (@float_lt_not_lt_trans (key best) (key x) (key z) Hlt), Hseen, Hz.
    + destruct Hz as [Hz|[<-|[]]]; [apply Hseen, Hz|exact Hlt].
Qed.

Lemma max_by_spec (xs : list A) (m : A) :
  Py.max_by key xs = Some m ->
  In m xs /\ forall y, In y xs -> (key m <? key y) = false.
Proof.
  destruct xs as [|x xs]; [discriminate|]. cbn [Py.max_by].
  intros H. injection H as <-. split; [apply max_from_in|].
  intros y Hy. apply (@max_from_top xs x [x]).
  - intros z [<-|[]]. apply float_lt_irrefl.
  - exact Hy.
Qed.

End MaxBy.

Lemma font_properties_none (spans : list span) :
  get_font_properties spans = None <-> spans = [].
Proof.
  unfold get_font_properties.
  destruct spans as [|sp sps]; [split; reflexivity|].
  cbn [map Py.max_by]. split; discriminate.
Qed.

(** X5: [get_font_properties] fails exactly on an empty list of spans;
    otherwise the size is the size of a span and no span is larger, the
    profile is bold exactly when the font name of some span holds [bold] in
    any case, and the colour is that of the first span, 0 if it has none. *)
Theorem font_properties_spec (spans : list span) :
  (get_font_properties spans = None <-> spans = [])
  /\ (forall fp, get_font_properties spans = Some fp ->
        In (size fp) (map span_size spans)
        /\ (forall sp, In sp spans -> (size fp <? span_size sp) = false)
        /\ (is_bold fp = true <->
            exists sp, In sp spans /\ Py.contains (lit "bold") (Py.lower (font sp)) = true)
        /\ color fp = match spans with
                      | sp :: _ => match span_color sp with Some c => c | None => 0%Z end
                      | [] => 0%Z
                      end).
Proof.
  split; [apply font_properties_none|].
  unfold get_font_properties. intros fp H.
  destruct (Py.max_by (fun x => x) (map span_size spans)) as [m|] eqn:Hm; [|discriminate].
  destruct spans as [|sp sps]; [discriminate|].
  injection H as <-. cbn [size is_bold color].
  destruct (@max_by_spec float (fun x => x) _ _ Hm) as [Hin Htop].
  split; [exact Hin|]. split.
  - intros sp' Hsp'. apply Htop. apply in_map. exact Hsp'.
  - split; [|reflexivity].
    exact (existsb_exists (fun sp0 => Py.contains (lit "bold") (Py.lower (font sp0)))
             (sp :: sps)).
Qed.

(** *** Elements, the outline and the title *)

Lemma line_element_some (n : nat) (w : float) (l : line) (e : element) :
  line_element n w l = Some e ->
  page_num e = n /\ text e = clean_text (line_text l) /\ text e <> []
  /\ get_font_properties (spans l) = Some (props e).
Proof.
  unfold line_element, line_text.
  destruct (spans l) as [|sp sps]; [discriminate|].
  destruct (get_font_properties (sp :: sps)) as [fp|]; [|discriminate].
  destruct (clean_text (concat (map span_text (sp :: sps)))) as [|c cs]; [discriminate|].
  intros H. injection H as <-. cbn. repeat split. discriminate.
Qed.

Lemma line_element_none (n : nat) (w : float) (l : line) :
  line_element n w l = None <-> blank_line l = true.
Proof.
  unfold line_element, blank_line, line_text.
  destruct (spans l) as [|sp sps] eqn:Hsp; [split; reflexivity|].
  destruct (get_font_properties (sp :: sps)) as [fp|] eqn:Hfp.
  - destruct (clean_text (concat (map span_text (sp :: sps)))); split;
      (reflexivity || discriminate).
  - apply font_properties_none in Hfp. discriminate.
Qed.

Lemma elements_by_line (n : nat) (doc : document) :
  elements_from n doc
  = flat_map (fun v => option_list (line_element (fst (fst v)) (snd (fst v)) (snd v)))
      (visited_from n doc).
Proof.
  revert n. induction doc as [|p doc IH]; intros n; cbn [elements_from visited_from];
    [reflexivity|].
  rewrite flat_map_app, <- IH. f_equal.
  unfold page_elements, page_lines. rewrite flat_map_map, flat_map_flat_map. reflexivity.
Qed.

Lemma visited_pages_below (doc : document) :
  forall n v, In v (visited_from n doc) -> fst (fst v) < n + length doc.
Proof.
  induction doc as [|p doc IH]; intros n v; cbn [visited_from]; [intros []|].
  rewrite in_app_iff, in_map_iff. intros [[l [<- _]]|H]; cbn; [lia|].
  apply IH in H. cbn [length]. lia.
Qed.

Lemma element_from_line (n : nat) (doc : document) (e : element) :
  In e (elements_from n doc) ->
  exists v, In v (visited_from n doc)
            /\ line_element (fst (fst v)) (snd (fst v)) (snd v) = Some e.
Proof.
  rewrite elements_by_line. intros H. apply in_flat_map in H.
  destruct H as [v [Hv He]]. exists v. split; [exact Hv|].
  destruct (line_element _ _ _) as [e'|]; cbn in He; [|contradiction].
  destruct He as [->|[]]. reflexivity.
Qed.

Lemma element_page_range (n : nat) (doc : document) (e : element) :
  In e (elements_from n doc) -> n <= page_num e < n + length doc.
Proof.
  intros H. destruct (element_from_line _ _ _ H) as [v [Hv He]].
  apply line_element_some in He. destruct He as [-> _].
  split; [apply (visited_pages_from _ _ _ Hv)|apply (visited_pages_below _ _ _ Hv)].
Qed.

(** X6: every outline entry names a page of the document; its text is not
    empty, has no whitespace at either end and no other whitespace than
    single spaces between words; it is the cleaned text of a line of that
    page, and its level is the answer for that text and the font profile of
    the line. *)
Theorem outline_entries_well_formed (doc : document) (e : entry) :
  In e (outline (extract_pdf_structure doc)) ->
  entry_page e < length doc
  /\ entry_text e <> []
  /\ Py.strip (entry_text e) = entry_text e
  /\ single_spaced (entry_text e) = true
  /\ exists n w l,
       In (n, w, l) (visited_from 0 doc)
       /\ n = entry_page e
       /\ entry_text e = clean_text (line_text l)
       /\ exists fp, get_font_properties (spans l) = Some fp
                     /\ determine_heading_level (entry_text e) fp = Some (level_of e).
Proof.
  intros H. apply outline_entry_from_element in H. destruct H as [elem [Hin He]].
  pose proof (element_page_range _ _ _ Hin) as Hpage.
  destruct (element_from_line _ _ _ Hin) as [[[n w] l] [Hv Hl]]. cbn [fst snd] in Hl.
  apply line_element_some in Hl. destruct Hl as [Hn [Htext [Hne Hfp]]].
  unfold heading_entry in He.
  destruct (determine_heading_level (text elem) (props elem)) as [lv|] eqn:Hlv; [|discriminate].
  injection He as <-. cbn [entry_page entry_text level_of].
  split; [lia|]. split; [exact Hne|].
  split; [rewrite Htext; apply strip_clean_text|].
  split.
  - rewrite Htext, clean_text_eq.
    destruct (special_case_hit _); [reflexivity|apply tidy_shape].
  - exists n, w, l. repeat split; try assumption; try congruence.
    exists (props elem). split; assumption.
Qed.

Lemma outline_entries_well_formed_witness :
  In {| level_of := H1; entry_text := lit "Welcome Party"; entry_page := 0 |}
     (outline (extract_pdf_structure [welcome_page]))
  /\ entry_page {| level_of := H1; entry_text := lit "Welcome Party"; entry_page := 0 |}
     < length [welcome_page].
Proof.
  split; [vm_compute; left; reflexivity|].
  apply (@outline_entries_well_formed [welcome_page]
           {| level_of := H1; entry_text := lit "Welcome Party"; entry_page := 0 |}).
  vm_compute. left. reflexivity.
Defined.

Lemma line_element_page (n k : nat) (w : float) (l : line) :
  match line_element n w l with
  | Some e => line_element (k + n) w l
              = Some {| text := text e; props := props e; page_num := k + page_num e;
                        el_bbox := el_bbox e; center_pos := center_pos e |}
  | None => line_element (k + n) w l = None
  end.
Proof.
  unfold line_element. destruct (spans l); [reflexivity|].
  destruct (get_font_properties _); [|reflexivity].
  destruct (clean_text _); reflexivity.
Qed.

Lemma page_outline_shift (n k : nat) (p : page) :
  flat_map (fun elem => option_list (heading_entry elem)) (page_elements (k + n) p)
  = map (shift_entry k)
      (flat_map (fun elem => option_list (heading_entry elem)) (page_elements n p)).
Proof.
  unfold page_elements. rewrite !flat_map_flat_map.
  induction (blocks p) as [|b bs IH]; [reflexivity|].
  cbn [flat_map]. rewrite map_app, <- IH. f_equal. clear IH.
  rewrite !flat_map_flat_map.
  induction (block_lines b) as [|l ls IHl]; [reflexivity|].
  cbn [flat_map]. rewrite map_app, <- IHl. f_equal. clear IHl.
  pose proof (line_element_page n k (width p) l) as H.
  destruct (line_element n (width p) l) as [e|]; rewrite H; [|reflexivity].
  cbn [option_list flat_map]. rewrite !app_nil_r. unfold heading_entry.
  cbn [text props page_num].
  destruct (determine_heading_level (text e) (props e)); reflexivity.
Qed.

Lemma outline_from_shift (doc : document) :
  forall n k,
    flat_map (fun elem => option_list (heading_entry elem)) (elements_from (k + n) doc)
    = map (shift_entry k)
        (flat_map (fun elem => option_list (heading_entry elem)) (elements_from n doc)).
Proof.
  induction doc as [|p doc IH]; intros n k; [reflexivity|].
  cbn [elements_from]. rewrite !flat_map_app, map_app, page_outline_shift.
  f_equal. rewrite <- IH. f_equal. f_equal. lia.
Qed.

Lemma elements_from_app (d1 d2 : document) :
  forall n, elements_from n (d1 ++ d2)
            = elements_from n d1 ++ elements_from (length d1 + n) d2.
Proof.
  induction d1 as [|p d1 IH]; intros n; [reflexivity|].
  cbn [app elements_from length]. rewrite IH, <- app_assoc. do 3 f_equal. lia.
Qed.

(** X7: the outline of two documents one after the other is the outline of
    the first, then the outline of the second with its page numbers moved
    on by the number of pages of the first. *)
Theorem outline_of_appended_documents (d1 d2 : document) :
  outline (extract_pdf_structure (d1 ++ d2))
  = outline (extract_pdf_structure d1)
    ++ map (shift_entry (length d1)) (outline (extract_pdf_structure d2)).
Proof.
  unfold extract_pdf_structure. cbn [outline].
  rewrite elements_from_app, flat_map_app, outline_from_shift. reflexivity.
Qed.

Lemma filter_filter (A : Type) (f g : A -> bool) (l : list A) :
  filter f (filter g l) = filter (fun x => g x && f x) l.
Proof.
  induction l as [|x l IH]; [reflexivity|].
  cbn [filter]. destruct (g x); cbn [filter andb]; [destruct (f x)|]; rewrite IH; reflexivity.
Qed.

Lemma detect_title_candidates (elements : list element) (height : float) :
  detect_title elements height
  = match Py.max_by (fun x => size (props x)) (filter (title_candidate height) elements) with
    | Some c => if (5 <=? length (text c))%nat then text c else []
    | None => []
    end.
Proof.
  unfold detect_title. rewrite filter_filter. reflexivity.
Qed.

(** X8: a title that is not empty is the text, of five characters or more,
    of an element of page 0 that is centred and lies above 30% of the height
    the page loop left behind, and no such element has a larger size. *)
Theorem title_is_largest_candidate (doc : document) :
  title (extract_pdf_structure doc) <> [] ->
  exists height e,
    height_after_loop doc = Some height
    /\ In e (elements_from 0 doc)
    /\ (page_num e = 0)%nat /\ center_pos e = true
    /\ (y0 (el_bbox e) <? height * 0.3) = true
    /\ title (extract_pdf_structure doc) = text e
    /\ 5 <= length (text e)
    /\ forall e', In e' (elements_from 0 doc) -> title_candidate height e' = true ->
                  (size (props e) <? size (props e')) = false.
Proof.
  unfold extract_pdf_structure. cbn [title].
  destruct (elements_from 0 doc) as [|e0 es] eqn:Hel; [intros H; contradiction H; reflexivity|].
  destruct (height_after_loop doc) as [h|]; [|intros H; contradiction H; reflexivity].
  rewrite detect_title_candidates.
  destruct (Py.max_by _ _) as [c|] eqn:Hmax; [|intros H; contradiction H; reflexivity].
  destruct (5 <=? length (text c))%nat eqn:Hlen; [|intros H; contradiction H; reflexivity].
  intros _. apply max_by_spec in Hmax. destruct Hmax as [Hin Htop].
  apply filter_In in Hin. destruct Hin as [Hin Hc].
  unfold title_candidate in Hc.
  apply andb_true_iff in Hc. destruct Hc as [Hp Hc].
  apply andb_true_iff in Hc. destruct Hc as [Hcen Hy].
  exists h, c. split; [reflexivity|]. split; [exact Hin|].
  split; [apply Nat.eqb_eq, Hp|]. split; [exact Hcen|]. split; [exact Hy|].
  split; [reflexivity|]. split; [apply Nat.leb_le, Hlen|].
  intros e' He' Hc'. apply Htop. apply filter_In. split; assumption.
Qed.

Lemma title_is_largest_candidate_witness :
  title (extract_pdf_structure [welcome_page]) <> []
  /\ exists height e,
       height_after_loop [welcome_page] = Some height
       /\ In e (elements_from 0 [welcome_page])
       /\ (page_num e = 0)%nat /\ center_pos e = true
       /\ (y0 (el_bbox e) <? height * 0.3) = true
       /\ title (extract_pdf_structure [welcome_page]) = text e
       /\ 5 <= length (text e)
       /\ forall e', In e' (elements_from 0 [welcome_page]) ->
                     title_candidate height e' = true ->
                     (size (props e) <? size (props e')) = false.
Proof.
  assert (H : title (extract_pdf_structure [welcome_page]) <> [])
    by (vm_compute; discriminate).
  split; [exact H|]. apply (title_is_largest_candidate [welcome_page] H).
Defined.

Lemma filter_nothing (A : Type) (f : A -> bool) (l : list A) :
  (forall x, In x l -> f x = false) -> filter f l = [].
Proof.
  induction l as [|x l IH]; intros H; [reflexivity|].
  cbn [filter]. rewrite (H x (or_introl eq_refl)). apply IH.
  intros y Hy. apply H. right. exact Hy.
Qed.

Lemma later_pages_no_candidate (height : float) (doc : document) (n : nat) :
  filter (title_candidate height) (elements_from (S n) doc) = [].
Proof.
  apply filter_nothing. intros e He.
  apply element_page_range in He. unfold title_candidate.
  destruct (page_num e); [lia|reflexivity].
Qed.

(** X9: when the last page is as high as the first, the title is that of
    the first page alone: the pages after it contribute no candidate. *)
Theorem title_from_first_page (p : page) (rest : document) :
  height_after_loop (p :: rest) = Some (height p) ->
  title (extract_pdf_structure (p :: rest)) = title (extract_pdf_structure [p]).
Proof.
  intros Hh. unfold extract_pdf_structure. cbn [title]. rewrite Hh.
  change (height_after_loop [p]) with (Some (height p)).
  cbn [elements_from]. rewrite app_nil_r.
  assert (E : detect_title (page_elements 0 p ++ elements_from 1 rest) (height p)
              = detect_title (page_elements 0 p) (height p)).
  { rewrite !detect_title_candidates, filter_app, later_pages_no_candidate, app_nil_r.
    reflexivity. }
  destruct (page_elements 0 p) as [|e es] eqn:Hp.
  - cbn [app]. destruct (elements_from 1 rest); [reflexivity|].
    rewrite detect_title_candidates.
    change (e :: l) with ([] ++ e :: l) in E. cbn [app] in E.
    rewrite detect_title_candidates in E. exact E.
  - cbn [app]. exact E.
Qed.

Lemma title_from_first_page_witness :
  height_after_loop [welcome_page; closing_page] = Some (height welcome_page)
  /\ title (extract_pdf_structure [welcome_page; closing_page])
     = title (extract_pdf_structure [welcome_page]).
Proof.
  split; [reflexivity|]. apply title_from_first_page. reflexivity.
Defined.

(** X10: no element is collected exactly when every line visited is blank
    (no span, or a text that cleans to nothing); the result then has an
    empty title and an empty outline. *)
Theorem blank_document_is_empty (doc : document) :
  (forall n w l, In (n, w, l) (visited_from 0 doc) -> blank_line l = true) <->
  extract_pdf_structure doc = {| title := []; outline := [] |}
  /\ elements_from 0 doc = [].
Proof.
  split.
  - intros H.
    assert (E : elements_from 0 doc = []).
    { rewrite elements_by_line. apply flat_map_all_nil. apply Forall_forall.
      intros [[n w] l] Hv. cbn [fst snd].
      rewrite (proj2 (line_element_none n w l) (H n w l Hv)). reflexivity. }
    split; [|exact E]. unfold extract_pdf_structure. rewrite E. reflexivity.
  - intros [_ E] n w l Hv. apply (line_element_none n w l).
    rewrite elements_by_line in E.
    destruct (line_element n w l) as [e|] eqn:He; [|reflexivity].
    exfalso.
    assert (Hin : In e (flat_map
      (fun v => option_list (line_element (fst (fst v)) (snd (fst v)) (snd v)))
      (visited_from 0 doc))).
    { apply in_flat_map. exists (n, w, l). split; [exact Hv|].
      cbn [fst snd]. rewrite He. left. reflexivity. }
    rewrite E in Hin. exact Hin.
Qed.

Local Close Scope float_scope.

(** *** The ignore patterns, read off the matcher *)

Lemma some_match_map (f : mstate -> mstate) (l : list mstate) :
  some_match (map f l) = some_match l.
Proof. destruct l; reflexivity. Qed.

Lemma some_match_flat_map_total (f : mstate -> list mstate) (l : list mstate) :
  (forall st, some_match (f st) = true) -> some_match (flat_map f l) = some_match l.
Proof.
  intros Hf. destruct l as [|st l]; [reflexivity|].
  cbn [flat_map]. rewrite some_match_app, Hf. reflexivity.
Qed.

Lemma matches_as_bol (ic : bool) (K : regex) (k : option ascii -> str -> bool) :
  matches_as (run ic K) k ->
  matches_as (run ic (Cat Bol K)) (fun p s => at_start p && k p s).
Proof.
  intros HK [p s gs]. rewrite run_cat. cbn [run prev rest].
  destruct p; [reflexivity|]. cbn [flat_map at_start andb]. rewrite app_nil_r. apply HK.
Qed.

Lemma search_matches_as (ic : bool) (r : regex) (k : option ascii -> str -> bool) :
  matches_as (run ic r) k ->
  forall s p, search_from ic r p s = anywhere_from k p s.
Proof.
  intros Hr. induction s as [|c s IH]; intros p.
  - pose proof (Hr (start p [])) as H0. cbn [rest prev start] in H0.
    cbn [search_from anywhere_from]. rewrite <- H0.
    destruct (run ic r (start p [])); reflexivity.
  - pose proof (Hr (start p (c :: s))) as H0. cbn [rest prev start] in H0.
    cbn [search_from anywhere_from]. rewrite <- H0, <- (IH (Some c)).
    destruct (run ic r (start p (c :: s))); reflexivity.
Qed.

Lemma anywhere_from_start (k : option ascii -> str -> bool) (s : str) :
  forall p, anywhere_from (fun p s => at_start p && k p s) p s = at_start p && k p s.
Proof.
  induction s as [|c s IH]; intros p; cbn [anywhere_from].
  - apply orb_false_r.
  - rewrite IH. cbn [at_start andb]. apply orb_false_r.
Qed.

Lemma search_at_start (ic : bool) (K : regex) (k : option ascii -> str -> bool) (s : str) :
  matches_as (run ic K) k -> search ic (Cat Bol K) s = k None s.
Proof.
  intros HK. unfold search.
  rewrite (@search_matches_as ic (Cat Bol K) _ (@matches_as_bol ic K k HK)), anywhere_from_start.
  reflexivity.
Qed.

(** A run of a class that holds the line feed, up to the end of the text. *)
Lemma class_run_to_eol (ic : bool) (q : ascii -> bool) :
  (forall c, Py.at_code 10 c = true -> q c = true) ->
  forall p s gs,
    some_match (flat_map (run ic Eol)
                  (star_loop (run ic (Cls q)) (length s)
                     {| prev := p; rest := s; groups := gs |}))
    = forallb q s.
Proof.
  intros Hnl p s gs.
  destruct (star_cls_shape ic q p s gs (le_n _)) as [tl [E Htl]].
  unfold str in *. rewrite E. cbn [flat_map]. rewrite some_match_app, run_eol. cbn [rest].
  destruct (forallb q s) eqn:Hall.
  - rewrite (@dropwhile_all q s Hall). reflexivity.
  - destruct (@dropwhile_not_all q s Hall) as [d [r [Hd Hqd]]]. rewrite Hd.
    rewrite (@flat_map_all_nil _ _ (run ic Eol) tl).
    + rewrite orb_false_r. destruct r as [|y r]; [|reflexivity].
      cbn [at_eol]. destruct (Py.at_code 10 d) eqn:Hc; [|reflexivity].
      rewrite (Hnl d Hc) in Hqd. discriminate.
    + eapply Forall_impl; [|exact Htl].
      intros st [y [r0 [Hr [_ Hdr]]]]. rewrite run_eol, Hr.
      destruct r0 as [|z r0]; [|reflexivity].
      cbn in Hdr. unfold str in *. rewrite Hd in Hdr. discriminate.
Qed.

Lemma matches_as_star_eol (ic : bool) (q : ascii -> bool) :
  (forall c, Py.at_code 10 c = true -> q c = true) ->
  matches_as (run ic (Cat (Star (Cls q)) Eol)) (fun _ s => forallb q s).
Proof.
  intros Hnl [p s gs]. rewrite run_cat, run_star. cbn [rest prev].
  apply class_run_to_eol, Hnl.
Qed.

Lemma matches_as_plus_eol (ic : bool) (q : ascii -> bool) :
  (forall c, Py.at_code 10 c = true -> q c = true) ->
  matches_as (run ic (Cat (Plus (Cls q)) Eol))
    (fun _ s => match s with [] => false | _ :: _ => forallb q s end).
Proof.
  intros Hnl [p s gs]. unfold Plus. rewrite !run_cat. cbn [rest prev].
  destruct s as [|x s]; [reflexivity|].
  rewrite run_cls. cbn [forallb]. destruct (q x); [|reflexivity].
  cbn [flat_map andb]. rewrite app_nil_r, run_star. cbn [rest].
  apply class_run_to_eol, Hnl.
Qed.

Lemma eqb_char_sym (a b : ascii) : Py.eqb_char a b = Py.eqb_char b a.
Proof. unfold Py.eqb_char. apply N.eqb_sym. Qed.

Lemma matches_as_word (w : str) :
  matches_as (run false (Word w)) (fun _ s => Py.startswith w s).
Proof.
  unfold matches_as.
  induction w as [|l w IH]; intros st; [destruct (rest st); reflexivity|].
  cbn [Word]. rewrite run_cat. destruct st as [p s gs]. cbn [rest prev].
  destruct s as [|x s]; [reflexivity|].
  change (run false (Lit l) {| prev := p; rest := x :: s; groups := gs |})
    with (if Py.eqb_char x l then [{| prev := Some x; rest := s; groups := gs |}] else []).
  cbn [Py.startswith]. rewrite (eqb_char_sym l x).
  destruct (Py.eqb_char x l); [|reflexivity].
  cbn [flat_map andb]. rewrite app_nil_r. apply IH.
Qed.

Lemma matches_as_alt (ic : bool) (r1 r2 : regex) (k1 k2 : option ascii -> str -> bool) :
  matches_as (run ic r1) k1 -> matches_as (run ic r2) k2 ->
  matches_as (run ic (Alt r1 r2)) (fun p s => k1 p s || k2 p s).
Proof.
  intros H1 H2 st. cbn [run]. rewrite some_match_app, H1, H2. reflexivity.
Qed.

Lemma matches_as_group (ic : bool) (i : nat) (r : regex) (k : option ascii -> str -> bool) :
  matches_as (run ic r) k -> matches_as (run ic (Group i r)) k.
Proof.
  intros H st. rewrite run_group, some_match_map. apply H.
Qed.

Lemma matches_as_then_opt (ic : bool) (r o : regex) (k : option ascii -> str -> bool) :
  matches_as (run ic r) k -> matches_as (run ic (Cat r (Opt o))) k.
Proof.
  intros H st. rewrite run_cat, some_match_flat_map_total; [apply H|].
  intros st'. unfold Opt. cbn [run]. rewrite some_match_app. apply orb_true_r.
Qed.

Lemma matches_as_wordb (ic : bool) (K : regex) (k : option ascii -> str -> bool) :
  matches_as (run ic K) k ->
  matches_as (run ic (Cat WordB K))
    (fun p s => xorb (is_word_opt p) (is_word_opt (head s)) && k p s).
Proof.
  intros HK [p s gs]. rewrite run_cat. cbn [run prev rest].
  destruct (xorb (is_word_opt p) (is_word_opt (head s))); [|reflexivity].
  cbn [flat_map andb]. rewrite app_nil_r. apply HK.
Qed.

Lemma matches_as_ext (F : mstate -> list mstate) (k k' : option ascii -> str -> bool) :
  (forall p s, k p s = k' p s) -> matches_as F k -> matches_as F k'.
Proof.
  intros E H st. rewrite <- E. apply H.
Qed.

Lemma anywhere_from_ext (k k' : option ascii -> str -> bool) :
  (forall p s, k p s = k' p s) ->
  forall s p, anywhere_from k p s = anywhere_from k' p s.
Proof.
  intros E. induction s as [|c s IH]; intros p; cbn [anywhere_from]; rewrite E;
    [reflexivity|]. rewrite IH. reflexivity.
Qed.

(** [[0-9]{1,3}$] at a position. *)
Lemma matches_as_short_number :
  matches_as (run false (Cat (Repeat 1 3 (Cls digit)) Eol)) (fun _ s => short_number s).
Proof.
  intros [p s gs]. cbn [rest prev].
  destruct s as [|c1 [|c2 [|c3 [|c4 [|c5 s]]]]]; cbn;
    repeat (match goal with
            | |- context [digit ?c] => destruct (digit c)
            | |- context [Py.at_code 10 ?c] => destruct (Py.at_code 10 c)
            end; unfold step; cbn);
    reflexivity.
Qed.

Lemma startswith_head (w s : str) (l : ascii) :
  Py.startswith (l :: w) s = true -> head s = Some l.
Proof.
  destruct s as [|x s]; [discriminate|]. cbn [Py.startswith head].
  intros H. apply andb_true_iff in H. destruct H as [H _].
  apply eqb_char_eq in H. rewrite H. reflexivity.
Qed.

Lemma label_starts_word (s : str) :
  existsb (fun w => Py.startswith w s) label_words = true -> is_word_opt (head s) = true.
Proof.
  unfold label_words. cbn [existsb]. rewrite !orb_true_iff.
  intros [H|[H|[H|[H|H]]]]; [| | | |discriminate];
    apply startswith_head in H; rewrite H; reflexivity.
Qed.

(** [\b(rsvp|date|time|address):?] at a position. *)
Lemma matches_as_label :
  matches_as (run false (Cat WordB (Cat (Group 1 (Alt (Word (lit "rsvp"))
                                    (Alt (Word (lit "date"))
                                      (Alt (Word (lit "time")) (Word (lit "address"))))))
                                  (Opt (Lit ":"%char)))))
    label_here.
Proof.
  eapply matches_as_ext;
    [|apply matches_as_wordb, matches_as_then_opt, matches_as_group;
      repeat apply matches_as_alt; apply matches_as_word].
  intros p s. cbn beta. unfold label_here, label_words. cbn [existsb].
  rewrite orb_false_r.
  destruct (_ || _) eqn:E; [|rewrite !andb_false_r; reflexivity].
  rewrite !andb_true_r.
  rewrite (label_starts_word s); [apply xorb_true_r|].
  unfold label_words. cbn [existsb]. rewrite orb_false_r. exact E.
Qed.

(** [(http|www|\.com)] at a position. *)
Lemma matches_as_web_address :
  matches_as (run false (Group 1 (Alt (Word (lit "http"))
                                    (Alt (Word (lit "www")) (Word (lit ".com"))))))
    (fun _ s => web_address s).
Proof.
  eapply matches_as_ext;
    [|apply matches_as_group; repeat apply matches_as_alt; apply matches_as_word].
  intros p s. cbn beta. unfold web_address. rewrite orb_assoc. reflexivity.
Qed.

Lemma newline_not_word (c : ascii) : Py.at_code 10 c = true -> nonword_or_underscore c = true.
Proof. char_table c. Qed.

Lemma newline_is_space (c : ascii) : Py.at_code 10 c = true -> space_char c = true.
Proof. char_table c. Qed.

Lemma is_ignored_text_unfold (t : str) :
  is_ignored_text t = ignored_directly (Py.lower t).
Proof.
  unfold is_ignored_text, ignored_directly, ignore_patterns. cbn zeta. cbn [existsb].
  rewrite (@search_at_start false _ _ (Py.lower t)
             (@matches_as_plus_eol false _ newline_not_word)).
  rewrite (@search_at_start false _ _ (Py.lower t) matches_as_short_number).
  rewrite (@search_at_start false _ _ (Py.lower t) matches_as_web_address).
  rewrite (@search_at_start false _ _ (Py.lower t)
             (@matches_as_star_eol false _ newline_is_space)).
  unfold search at 1. rewrite (@search_matches_as false _ _ matches_as_label).
  rewrite orb_false_r, !orb_assoc. reflexivity.
Qed.

Lemma startswith_prefix (w s : str) :
  Py.startswith w s = true <-> exists r, s = w ++ r.
Proof.
  revert s. induction w as [|l w IH]; intros s.
  - split; [intros _; exists s; reflexivity|reflexivity].
  - destruct s as [|x s]; cbn [Py.startswith].
    + split; [discriminate|intros [r Hr]; discriminate Hr].
    + rewrite andb_true_iff, IH. split.
      * intros [Hl [r ->]]. apply eqb_char_eq in Hl. subst x. exists r. reflexivity.
      * intros [r Hr]. cbn [app] in Hr. injection Hr as -> ->.
        split; [apply N.eqb_refl|exists r; reflexivity].
Qed.

Lemma anywhere_from_split (k : option ascii -> str -> bool) (s : str) :
  forall p,
    anywhere_from k p s = true <->
    exists pre suf, s = pre ++ suf /\ k (last_char p pre) suf = true.
Proof.
  induction s as [|c s IH]; intros p; cbn [anywhere_from].
  - rewrite orb_false_r. split.
    + intros H. exists [], []. split; [reflexivity|exact H].
    + intros [pre [suf [E H]]]. symmetry in E. apply app_eq_nil in E.
      destruct E as [-> ->]. exact H.
  - rewrite orb_true_iff, IH. split.
    + intros [H|[pre [suf [-> H]]]].
      * exists [], (c :: s). split; [reflexivity|exact H].
      * exists (c :: pre), suf. split; [reflexivity|exact H].
    + intros [[|x pre] [suf [E H]]]; cbn [app] in E.
      * left. subst suf. exact H.
      * right. injection E as <- ->. exists pre, suf. split; [reflexivity|exact H].
Qed.

Lemma at_code_eq (n : N) (c : ascii) : Py.at_code n c = true -> c = ascii_of_N n.
Proof.
  unfold Py.at_code, Py.code. intros H. apply N.eqb_eq in H.
  rewrite <- H. symmetry. apply ascii_N_embedding.
Qed.

Lemma at_eol_cases (s : str) : at_eol s = true <-> s = [] \/ s = [line_feed].
Proof.
  destruct s as [|c [|d s]]; cbn [at_eol].
  - split; [left; reflexivity|reflexivity].
  - split.
    + intros H. right. apply at_code_eq in H. subst c. reflexivity.
    + intros [H|H]; [discriminate|]. injection H as ->. reflexivity.
  - split; [discriminate|intros [H|H]; discriminate].
Qed.

Lemma short_number_cases (s : str) :
  short_number s = true <->
  exists ds tail,
    s = ds ++ tail /\ 1 <= length ds <= 3 /\ forallb digit ds = true
    /\ (tail = [] \/ tail = [line_feed]).
Proof.
  split.
  - destruct s as [|d1 r1]; [discriminate|]. cbn [short_number].
    intros H. apply andb_true_iff in H. destruct H as [H1 H].
    apply orb_true_iff in H. destruct H as [H|H].
    { exists [d1], r1. cbn. rewrite H1. repeat split; try lia. apply at_eol_cases, H. }
    destruct r1 as [|d2 r2]; [discriminate|].
    apply andb_true_iff in H. destruct H as [H2 H].
    apply orb_true_iff in H. destruct H as [H|H].
    { exists [d1; d2], r2. cbn. rewrite H1, H2. repeat split; try lia.
      apply at_eol_cases, H. }
    destruct r2 as [|d3 r3]; [discriminate|].
    apply andb_true_iff in H. destruct H as [H3 H].
    exists [d1; d2; d3], r3. cbn. rewrite H1, H2, H3. repeat split; try lia.
    apply at_eol_cases, H.
  - intros [ds [tail [-> [Hlen [Hd Ht]]]]].
    apply at_eol_cases in Ht.
    destruct ds as [|d1 [|d2 [|d3 [|d4 ds]]]]; cbn [length] in Hlen; try lia;
      cbn [forallb] in Hd; cbn [app short_number];
      repeat match goal with
        | H : _ && _ = true |- _ => apply andb_true_iff in H; destruct H
        end;
      repeat match goal with
        | H : digit _ = true |- _ => rewrite H
        end;
      rewrite Ht; cbn [andb orb]; rewrite ?orb_true_r; reflexivity.
Qed.

Lemma only_marks_cases (s : str) :
  only_marks s = true <-> s <> [] /\ forallb nonword_or_underscore s = true.
Proof.
  destruct s as [|c s]; cbn [only_marks].
  - split; [discriminate|intros [H _]; contradiction H; reflexivity].
  - split; [intros H; split; [discriminate|exact H]|intros [_ H]; exact H].
Qed.

Lemma web_address_cases (s : str) :
  web_address s = true <-> exists w r, In w web_words /\ s = w ++ r.
Proof.
  unfold web_address, web_words. rewrite !orb_true_iff, !startswith_prefix. split.
  - intros [[[r H]|[r H]]|[r H]]; eexists; exists r; (split; [|exact H]); cbn; tauto.
  - intros [w [r [Hw H]]]. cbn [In] in Hw.
    destruct Hw as [<-|[<-|[<-|[]]]]; [left; left|left; right|right]; exists r; exact H.
Qed.

Lemma has_label_cases (s : str) :
  has_label s = true <->
  exists pre w r,
    In w label_words /\ s = pre ++ w ++ r /\ is_word_opt (last_char None pre) = false.
Proof.
  unfold has_label. rewrite anywhere_from_split. split.
  - intros [pre [suf [-> H]]]. unfold label_here in H.
    apply andb_true_iff in H. destruct H as [Hp Hw].
    apply existsb_exists in Hw. destruct Hw as [w [Hin Hw]].
    apply startswith_prefix in Hw. destruct Hw as [r ->].
    exists pre, w, r. split; [exact Hin|]. split; [reflexivity|].
    apply negb_true_iff, Hp.
  - intros [pre [w [r [Hin [-> Hp]]]]]. exists pre, (w ++ r). split; [reflexivity|].
    unfold label_here. rewrite Hp. cbn [negb andb].
    apply existsb_exists. exists w. split; [exact Hin|].
    apply startswith_prefix. exists r. reflexivity.
Qed.

(** X11: a text is ignored exactly when, in lower case, it is made of
    non-word characters and underscores only (at least one), or is one to
    three digits with at most a line feed after them, or begins with [http],
    [www] or [.com], or holds [rsvp], [date], [time] or [address] at its
    start or after a character that is no word character (whatever
    follows), or is whitespace only, the empty text included. *)
Theorem ignored_text_exactly (t : str) :
  is_ignored_text t = true <-> ignored_shape (Py.lower t).
Proof.
  rewrite is_ignored_text_unfold. unfold ignored_directly, ignored_shape, only_spaces.
  rewrite !orb_true_iff, only_marks_cases, short_number_cases, web_address_cases,
    has_label_cases.
  tauto.
Qed.

(** *** What the normaliser keeps, drops and replaces *)

Lemma strip_split (t : str) :
  exists a b, t = a ++ Py.strip t ++ b
              /\ forallb Py.isspace a = true /\ forallb Py.isspace b = true.
Proof.
  unfold Py.strip, Py.rstrip_by.
  destruct (@dropwhile_split Py.isspace t) as [a [Ha Hsa]].
  destruct (@dropwhile_split Py.isspace (rev (Py.dropwhile Py.isspace t))) as [b [Hb Hsb]].
  exists a, (rev b). split; [|split; [exact Hsa|rewrite forallb_rev; exact Hsb]].
  rewrite <- rev_app_distr, <- Hb, rev_involutive. exact Ha.
Qed.

Lemma rstrip_split (q : ascii -> bool) (s : str) :
  exists b, s = Py.rstrip_by q s ++ b /\ forallb q b = true.
Proof.
  unfold Py.rstrip_by.
  destruct (@dropwhile_split q (rev s)) as [b [Hb Hqb]].
  exists (rev b). split; [|rewrite forallb_rev; exact Hqb].
  rewrite <- rev_app_distr, <- Hb, rev_involutive. reflexivity.
Qed.

Lemma forallb_strip (q : ascii -> bool) (t : str) :
  (forall c, Py.isspace c = true -> q c = true) ->
  forallb q (Py.strip t) = forallb q t.
Proof.
  intros Hq. destruct (strip_split t) as [a [b [E [Ha Hb]]]].
  rewrite E at 2. rewrite !forallb_app.
  rewrite (@forallb_impl q Py.isspace a Hq Ha), (@forallb_impl q Py.isspace b Hq Hb).
  rewrite andb_true_r. reflexivity.
Qed.

Lemma h_is_not_junk (c : ascii) :
  lit_matches true "h"%char c = true -> space_hyphen_underscore c = false.
Proof. char_table c. Qed.

Lemma special_case_hit_not_junk (x : str) :
  special_case_hit x = true -> forallb space_hyphen_underscore x = false.
Proof.
  intros H. apply special_case_hit_in_order in H.
  unfold special_words in H. cbn [in_order] in H.
  apply (proj1 (anywhere_iff _ x)) in H. destruct H as [a [s' [E Hk]]]. subst x.
  unfold spelled_then in Hk.
  destruct s' as [|h' r]; [discriminate|].
  change (lit "hope") with ("h"%char :: lit "ope") in Hk. cbn [spells] in Hk.
  destruct (lit_matches true "h"%char h') eqn:Hh; [|discriminate Hk].
  rewrite forallb_app. cbn [forallb]. rewrite (h_is_not_junk _ Hh).
  apply andb_false_r.
Qed.

Lemma join_split_nil (z : str) :
  Py.join (lit " ") (Py.split z) = [] -> forallb Py.isspace z = true.
Proof.
  unfold Py.split. induction z as [|c z IH]; [reflexivity|].
  cbn [Py.split_aux forallb]. destruct (Py.isspace c) eqn:Hc; [exact IH|].
  intros H. exfalso.
  destruct (join_split_spaced z) as [Hcur _].
  destruct (Hcur [c]) as [tl [E _]]; [discriminate|]. cbn [rev app] in E.
  unfold str in *. rewrite E in H. discriminate H.
Qed.

Lemma tidy_nil (x : str) :
  tidy x = [] <-> forallb space_hyphen_underscore x = true.
Proof.
  unfold tidy. rewrite sub_junk. split.
  - intros H.
    destruct (Py.join (lit " ") (Py.split (Py.rstrip_by space_hyphen_underscore x)))
      as [|c y] eqn:Hy.
    + apply join_split_nil in Hy.
      destruct (rstrip_split space_hyphen_underscore x) as [b [E Hb]].
      rewrite E, forallb_app, Hb, andb_true_r.
      apply (@forallb_impl space_hyphen_underscore Py.isspace _ space_is_junk Hy).
    + destruct (squeeze_head c y) as [r Hr]. rewrite Hr in H. discriminate H.
  - intros H. rewrite (@rstrip_all space_hyphen_underscore x H). reflexivity.
Qed.

(** X12: a line is cleaned to the empty text, and so left out of the
    elements, exactly when it is made of whitespace, hyphens and underscores
    only. *)
Theorem clean_text_empty_iff (t : str) :
  clean_text t = [] <-> forallb space_hyphen_underscore t = true.
Proof.
  rewrite clean_text_eq, <- (@forallb_strip space_hyphen_underscore t space_is_junk).
  destruct (special_case_hit (Py.strip t)) eqn:Hhit.
  - rewrite (special_case_hit_not_junk _ Hhit). split; discriminate.
  - apply tidy_nil.
Qed.

(** X13: each step of the normaliser leaves a cleaned text as it is:
    stripping, removing the run of whitespace, hyphens and underscores at
    the end, joining the words with single spaces, and dropping whitespace
    between a word character and a punctuation mark. *)
Theorem cleaned_text_fixed_by_each_step (t : str) :
  Py.strip (clean_text t) = clean_text t
  /\ sub false trailing_junk [] (clean_text t) = clean_text t
  /\ Py.join (lit " ") (Py.split (clean_text t)) = clean_text t
  /\ sub false space_before_punct [TRef 1; TRef 2] (clean_text t) = clean_text t.
Proof.
  split; [apply strip_clean_text|].
  rewrite clean_text_eq. destruct (special_case_hit (Py.strip t)).
  - repeat split; vm_compute; reflexivity.
  - destruct (tidy_shape (Py.strip t)) as [Hs He].
    split; [rewrite sub_junk; apply rstrip_fixed, He|].
    split; [apply join_split_fixed, Hs|].
    unfold tidy at 1 2. apply squeeze_idempotent.
Qed.

Lemma plain_head_not_space (l c : ascii) :
  negb (soft l) && Py.eqb_char (Py.lower1 l) l = true ->
  Py.isspace c = true -> lit_matches true l c = false.
Proof.
  intros Hl Hc. destruct (lit_matches true l c) eqn:E; [|reflexivity].
  pose proof (matched_not_soft l c Hl E) as H. rewrite (space_is_soft _ Hc) in H.
  discriminate H.
Qed.

(** Whitespace after the text adds nothing to what the words spell. *)
Lemma spelled_then_last (w : str) (k : str -> bool) (c : ascii) :
  w <> [] -> plain w = true -> Py.isspace c = true ->
  (forall u, k (u ++ [c]) = k u) ->
  forall u, spelled_then w k (u ++ [c]) = spelled_then w k u.
Proof.
  intros Hne Hw Hc Hk. unfold spelled_then.
  induction w as [|l w IH]; [contradiction Hne; reflexivity|].
  cbn [plain forallb] in Hw. apply andb_true_iff in Hw. destruct Hw as [Hl Hw].
  intros [|x u]; cbn [app spells].
  - rewrite (plain_head_not_space l c Hl Hc). reflexivity.
  - destruct (lit_matches true l x); [|reflexivity].
    destruct w as [|l' w'].
    + cbn [spells]. apply Hk.
    + apply IH; [discriminate|exact Hw].
Qed.

Lemma anywhere_last (k : str -> bool) (c : ascii) :
  (forall u, k (u ++ [c]) = k u) ->
  forall s, anywhere k (s ++ [c]) = anywhere k s.
Proof.
  intros Hk. induction s as [|x s IH].
  - pose proof (Hk []) as H0. cbn [app] in H0.
    cbn [app anywhere]. rewrite H0, orb_false_r.
    destruct (k []); reflexivity.
  - pose proof (Hk (x :: s)) as H0. cbn [app] in H0.
    cbn [app anywhere]. rewrite IH, H0. reflexivity.
Qed.

Lemma in_order_last (ws : list str) (c : ascii) :
  Forall (fun w => w <> [] /\ plain w = true) ws -> Py.isspace c = true ->
  forall s, in_order ws (s ++ [c]) = in_order ws s.
Proof.
  intros Hws Hc. induction Hws as [|w ws [Hne Hw] _ IH]; [reflexivity|].
  cbn [in_order]. apply anywhere_last. apply spelled_then_last; assumption.
Qed.

Lemma in_order_first (ws : list str) (c : ascii) (s : str) :
  Forall (fun w => w <> [] /\ plain w = true) ws -> Py.isspace c = true ->
  in_order ws (c :: s) = in_order ws s.
Proof.
  intros Hws Hc. destruct Hws as [|w ws [Hne Hw] _]; [reflexivity|].
  cbn [in_order anywhere]. unfold spelled_then at 1.
  destruct w as [|l w]; [contradiction Hne; reflexivity|].
  cbn [plain forallb] in Hw. apply andb_true_iff in Hw. destruct Hw as [Hl _].
  cbn [spells]. rewrite (plain_head_not_space l c Hl Hc). reflexivity.
Qed.

Lemma in_order_between_spaces (ws : list str) (a b s : str) :
  Forall (fun w => w <> [] /\ plain w = true) ws ->
  forallb Py.isspace a = true -> forallb Py.isspace b = true ->
  in_order ws (a ++ s ++ b) = in_order ws s.
Proof.
  intros Hws Ha Hb. induction a as [|c a IH].
  - cbn [app]. clear Ha. revert s. induction b as [|c b IHb]; intros s.
    + rewrite app_nil_r. reflexivity.
    + cbn [forallb] in Hb. apply andb_true_iff in Hb. destruct Hb as [Hc Hb].
      change (s ++ c :: b) with (s ++ [c] ++ b). rewrite app_assoc, (IHb Hb).
      apply (@in_order_last ws c Hws Hc).
  - cbn [forallb] in Ha. apply andb_true_iff in Ha. destruct Ha as [Hc Ha].
    cbn [app]. rewrite (@in_order_first ws c (a ++ s ++ b) Hws Hc). apply IH, Ha.
Qed.

Lemma in_order_strip (t : str) :
  in_order special_words (Py.strip t) = in_order special_words t.
Proof.
  destruct (strip_split t) as [a [b [E [Ha Hb]]]]. rewrite E at 2.
  symmetry. apply in_order_between_spaces; [apply special_words_plain|assumption..].
Qed.

(** X14: a text without a line feed is replaced by the canonical text of the
    special case exactly when it holds the words [hope], [see] and [there]
    in this order, one after the other, in any case. *)
Theorem special_case_exactly (t : str) :
  no_newline t = true ->
  (clean_text t = canonical <-> in_order special_words t = true).
Proof.
  intros Hnl. rewrite <- in_order_strip, clean_text_eq. split.
  - destruct (special_case_hit (Py.strip t)) eqn:Hhit.
    + intros _. apply special_case_hit_in_order, Hhit.
    + intros H. apply tidy_keeps_words_apart. rewrite H. vm_compute. reflexivity.
  - intros H.
    rewrite (@in_order_special_case_hit (Py.strip t) (@strip_no_newline t Hnl) H).
    reflexivity.
Qed.

Lemma special_case_exactly_witness :
  no_newline hope_line = true
  /\ (clean_text hope_line = canonical <-> in_order special_words hope_line = true).
Proof.
  split; [vm_compute; reflexivity|].
  apply (@special_case_exactly hope_line). vm_compute. reflexivity.
Defined.

(** *** The order of the outline *)

Lemma sorted_through_options (A B : Type) (f : A -> option B) (k : A -> nat) (k' : B -> nat) :
  (forall v e, f v = Some e -> k' e = k v) ->
  forall l, StronglySorted le (map k l) ->
            StronglySorted le (map k' (flat_map (fun v => option_list (f v)) l)).
Proof.
  intros Hk. induction l as [|v l IH]; intros Hs; [constructor|].
  cbn [map] in Hs. apply StronglySorted_inv in Hs. destruct Hs as [Hs Hv].
  cbn [flat_map]. destruct (f v) as [e|] eqn:Hf; cbn [option_list app map]; [|apply IH, Hs].
  constructor; [apply IH, Hs|].
  apply Forall_forall. intros m Hm. apply in_map_iff in Hm. destruct Hm as [e' [<- He']].
  apply in_flat_map in He'. destruct He' as [v' [Hv' He']].
  destruct (f v') as [e''|] eqn:Hf'; cbn in He'; [|contradiction].
  destruct He' as [<-|[]].
  rewrite (Hk _ _ Hf), (Hk _ _ Hf').
  rewrite Forall_forall in Hv. apply Hv. apply in_map. exact Hv'.
Qed.

(** X15: the page numbers of the outline never decrease from one entry to
    the next. *)
Theorem outline_pages_ascend (doc : document) :
  StronglySorted le (map entry_page (outline (extract_pdf_structure doc))).
Proof.
  unfold extract_pdf_structure. cbn [outline]. rewrite outline_by_line_from.
  apply (@sorted_through_options _ _ line_entry (fun v => fst (fst v)) entry_page).
  - intros [[n w] l] e He. apply line_entry_page_text in He. apply He.
  - apply visited_pages_ascend.
Qed.
